(** * Bank promo response dashboard: data pipeline of [streamlit_app.py]

    A shallow embedding of the table operations the dashboard performs
    (loading, filtering by [TARGET], per-feature aggregation, top-10
    bucketing, the long-form correlation table and the share computation of
    the charts), with the properties of the specification stated over it.

    Conventions of the embedding:
    - a pandas [DataFrame] is a list of column names and a list of rows; a row
      carries its index label and its cells, in column order;
    - a cell is an integer, a string or the missing value [NaN]; numeric
      columns of the data set (counts, months, rubles) are integers;
    - Python's [True]/[False] are the integers [1]/[0], as [==] sees them;
    - an exception is a value of [Exn], and code that may raise lives in
      [Result];
    - table objects live in a heap of locations, so that the one in-place
      update of the source ([source['GEN_INDUSTRY'] = ...]) is an update of
      the heap and everything else allocates. *)

From Stdlib Require Import ZArith QArith Qround Qabs List Sorted String Ascii DecimalString Lia Lqa.
From stdpp Require Import base option list strings gmap.

Open Scope Z_scope.

(** ** Cell values and exceptions *)

Inductive Value :=
  | VInt (z : Z)
  | VStr (s : string)
  | VNaN.

#[global] Instance Value_eq_dec : EqDecision Value.
Proof. solve_decision. Defined.

Inductive Exn :=
  | KeyError (key : string)
  | TypeError
  | FileNotFoundError (path : string)
  | ReferenceError.

Inductive Result (A : Type) :=
  | Ok (a : A)
  | Raise (e : Exn).
Arguments Ok {A} a.
Arguments Raise {A} e.

#[global] Instance Result_ret : MRet Result := λ A a, Ok a.
#[global] Instance Result_bind : MBind Result := λ A B f m,
  match m with
  | Ok a => f a
  | Raise e => Raise e
  end.

(** ** Tables *)

Record Row := mkRow { label : Z; cells : list Value }.

Record DataFrame := mkDF { columns : list string; rows : list Row }.

(** Position of the first column called [name]. *)
Fixpoint index_of (name : string) (cols : list string) : option nat :=
  match cols with
  | [] => None
  | c :: cols' => if decide (c = name) then Some 0%nat
                  else S <$> index_of name cols'
  end.

(** The cell of row [r] in column number [i]; a row too short for the frame
    reads as missing, as [read_csv] fills it. *)
Definition cell (i : nat) (r : Row) : Value := default VNaN (cells r !! i).

(** [df[name]] and [df.name]: the column as a series, [KeyError] without it. *)
Definition getitem_col (df : DataFrame) (name : string) : Result (list Value) :=
  match index_of name (columns df) with
  | Some i => Ok (cell i <$> rows df)
  | None => Raise (KeyError name)
  end.

(** Boolean indexing keeps the positions where the mask is true. The masks
    of the source are always computed from the frame they index, so the
    lengths agree. *)
Fixpoint select {A : Type} (mask : list bool) (l : list A) : list A :=
  match mask, l with
  | b :: mask', x :: l' => if b then x :: select mask' l' else select mask' l'
  | _, _ => []
  end.

(** [df[mask]]: a new frame with the same columns and the selected rows. *)
Definition getitem_mask (df : DataFrame) (mask : list bool) : DataFrame :=
  mkDF (columns df) (select mask (rows df)).

(** [x == v] for an integer [v]: strings and [NaN] are never equal to it. *)
Definition value_eq_int (v : Z) (x : Value) : bool :=
  match x with
  | VInt z => bool_decide (z = v)
  | _ => false
  end.

(** [x != s] for a string [s]. *)
Definition value_ne_str (s : string) (x : Value) : bool :=
  match x with
  | VStr t => bool_decide (t ≠ s)
  | _ => true
  end.

(** ** [filter_data] (lines 35-45)

    [return df[df["TARGET"] == target_selected]] *)
Definition filter_data (df : DataFrame) (target_selected : Z) : Result DataFrame :=
  col ← getitem_col df "TARGET";
  mret (getitem_mask df (value_eq_int target_selected <$> col)).


(** ** Aggregation: [Series.value_counts], [reset_index], [rename]

    [value_counts] drops missing values, counts every distinct value and
    orders the result by descending count; values with equal counts stay in
    first-seen order, the order the specification names for ties. *)

Definition notna (x : Value) : bool :=
  match x with
  | VNaN => false
  | _ => true
  end.

(** One more occurrence of [v] in the table of counters; a value not yet
    seen goes to the end. *)
Fixpoint bump (v : Value) (acc : list (Value * nat)) : list (Value * nat) :=
  match acc with
  | [] => [(v, 1%nat)]
  | (w, n) :: acc' =>
      if decide (w = v) then (w, S n) :: acc' else (w, n) :: bump v acc'
  end.

Definition tally (col : list Value) : list (Value * nat) :=
  fold_left (λ acc v, bump v acc) col [].

(** Insertion into a list ordered by descending count, before the first
    entry whose count is not larger. *)
Fixpoint insert_desc (x : Value * nat) (l : list (Value * nat)) : list (Value * nat) :=
  match l with
  | [] => [x]
  | y :: l' =>
      if decide (y.2 ≤ x.2)%nat then x :: y :: l' else y :: insert_desc x l'
  end.

Definition sort_desc (l : list (Value * nat)) : list (Value * nat) :=
  foldr insert_desc [] l.

Definition value_counts (col : list Value) : list (Value * nat) :=
  sort_desc (tally (List.filter notna col)).

(** Rows numbered from [start] on, one per counted value: the value and its
    count. *)
Fixpoint count_rows (start : nat) (vc : list (Value * nat)) : list Row :=
  match vc with
  | [] => []
  | (v, c) :: vc' =>
      mkRow (Z.of_nat start) [v; VInt (Z.of_nat c)] :: count_rows (S start) vc'
  end.

(** [series.value_counts().reset_index()] for a series called [name]. *)
Definition reset_index (name : string) (vc : list (Value * nat)) : DataFrame :=
  mkDF [name; "count"%string] (count_rows 0 vc).

(** [df.rename(columns={old: new})] *)
Definition rename (old new : string) (df : DataFrame) : DataFrame :=
  mkDF ((λ c, if decide (c = old) then new else c) <$> columns df) (rows df).

(** [df[name] = series], for a series computed from [df] itself: an existing
    column is overwritten cell by cell, a new one is appended. *)
Definition setitem (df : DataFrame) (name : string) (vals : list Value) : DataFrame :=
  match index_of name (columns df) with
  | Some i =>
      mkDF (columns df)
           (zip_with (λ r v, mkRow (label r) (<[i:=v]> (cells r))) (rows df) vals)
  | None =>
      mkDF (columns df ++ [name])
           (zip_with (λ r v, mkRow (label r) (cells r ++ [v])) (rows df) vals)
  end.

(** [x > v] for an integer [v]: ordering a string with a number raises. *)
Definition value_gt_int (v : Z) (x : Value) : Result bool :=
  match x with
  | VInt z => Ok (bool_decide (v < z))
  | VNaN => Ok false
  | VStr _ => Raise TypeError
  end.

Fixpoint series_gt_int (v : Z) (col : list Value) : Result (list bool) :=
  match col with
  | [] => Ok []
  | x :: col' =>
      b ← value_gt_int v x;
      bs ← series_gt_int v col';
      mret (b :: bs)
  end.

(** The values of the [n] largest counts:
    [col.value_counts()[:n].index.tolist()] *)
Definition top_values (n : nat) (col : list Value) : list Value :=
  (take n (value_counts col)).*1.

(** [col.apply(lambda x: x if x in top else other)] *)
Definition bucket (top : list Value) (other : string) (col : list Value) : list Value :=
  (λ x, if bool_decide (x ∈ top) then x else VStr other) <$> col.

(** ** The heap of table objects

    A location is a position in the heap. A computation takes the heap and
    returns its outcome together with the heap it leaves. *)

Abbreviation loc := nat (only parsing).
Abbreviation Heap := (list DataFrame) (only parsing).
Definition M (A : Type) : Type := Heap → Result A * Heap.

#[global] Instance M_ret : MRet M := λ A a h, (Ok a, h).
#[global] Instance M_bind : MBind M := λ A B f m h,
  match m h with
  | (Ok a, h') => f a h'
  | (Raise e, h') => (Raise e, h')
  end.

Definition lift {A : Type} (r : Result A) : M A := λ h, (r, h).

(** A new object. *)
Definition alloc (df : DataFrame) : M loc := λ h : Heap, (Ok (length h), h ++ [df]).

(** The object a variable is bound to. *)
Definition load (l : loc) : M DataFrame := λ h : Heap,
  match h !! l with
  | Some df => (Ok df, h)
  | None => (Raise ReferenceError, h)
  end.

(** Replacing an object's content where it stands. *)
Definition store (l : loc) (df : DataFrame) : M unit := λ h : Heap, (Ok (), <[l:=df]> h).

(** ** The stages of the job columns (lines 297-329) *)

(** [filter_data(data, flag)]: the cached function hands out a table object
    of its own on every call. *)
Definition call_filter_data (data : loc) (flag : Z) : M loc :=
  df ← load data;
  out ← lift (filter_data df flag);
  alloc out.

(** [source = source[source.COL != sentinel]] (lines 304 and 316) *)
Definition exclude_str (source : loc) (col sentinel : string) : M loc :=
  df ← load source;
  c ← lift (getitem_col df col);
  alloc (getitem_mask df (value_ne_str sentinel <$> c)).

(** Lines 306-307 and 318-319:
    [top10 = source.SRC.value_counts()[:10].index.tolist()]
    [source[DST] = source.SRC.apply(lambda x: x if x in top10 else other)] *)
Definition bucket_top10 (source : loc) (src dst other : string) : M unit :=
  df ← load source;
  c ← lift (getitem_col df src);
  store source (setitem df dst (bucket (top_values 10 c) other c)).

(** [source.COL.value_counts().reset_index()] *)
Definition aggregate (source : loc) (col : string) : M loc :=
  df ← load source;
  c ← lift (getitem_col df col);
  alloc (reset_index col (value_counts c)).

(** [source.COL.value_counts().reset_index().rename(columns={'count': 'percent'})] *)
Definition aggregate_percent (source : loc) (col : string) : M loc :=
  df ← load source;
  c ← lift (getitem_col df col);
  alloc (rename "count" "percent" (reset_index col (value_counts c))).

(** [source = source[source.COL > 0]] (line 327) *)
Definition keep_positive (source : loc) (col : string) : M loc :=
  df ← load source;
  c ← lift (getitem_col df col);
  mask ← lift (series_gt_int 0 c);
  alloc (getitem_mask df mask).

(** ** Chart data (lines 96-134)

    What the chart specifications compute from the table they are given,
    before drawing: the share of every row. Shares are exact rationals. *)

Definition as_number (x : Value) : Result Z :=
  match x with
  | VInt z => Ok z
  | _ => Raise TypeError
  end.

Fixpoint numbers (col : list Value) : Result (list Z) :=
  match col with
  | [] => Ok []
  | x :: col' =>
      z ← as_number x;
      zs ← numbers col';
      mret (z :: zs)
  end.

Definition sumZ (l : list Z) : Z := foldr Z.add 0 l.

Definition share (total c : Z) : Q := (inject_Z c / inject_Z total)%Q.

(** [bar_chart]: [transform_joinaggregate(total='sum(count)')] followed by
    [transform_calculate(percent="datum.count / datum.total")]; the bars
    show [percent] against [feature]. The feature is the field name, without
    the type suffix of the encoding ([':N'], [':Q']). *)
Definition bar_chart (source : DataFrame) (feature : string) : Result (list (Value * Q)) :=
  xs ← getitem_col source feature;
  counts ← getitem_col source "count";
  cs ← numbers counts;
  mret (zip xs (share (sumZ cs) <$> cs)).

(** [pie_chart]: [theta=alt.Theta("percent", stack='normalize')], every arc
    is its [percent] value over the sum of the column. *)
Definition pie_chart (source : DataFrame) (feature : string) : Result (list (Value * Q)) :=
  xs ← getitem_col source feature;
  percents ← getitem_col source "percent";
  ps ← numbers percents;
  mret (zip xs (share (sumZ ps) <$> ps)).

Definition show_bar (source : loc) (feature : string) : M (list (Value * Q)) :=
  df ← load source;
  lift (bar_chart df feature).

Definition show_pie (source : loc) (feature : string) : M (list (Value * Q)) :=
  df ← load source;
  lift (pie_chart df feature).

(** ** The sections of the page

    Every section returns the location of the table it hands to its chart
    and the shares the chart shows. *)

Definition other_industries : string := "Другие сферы".
Definition other_titles : string := "Другое".

(** Education (lines 207-211). *)
Definition tab1_education (data : loc) (flag : Z) : M (loc * list (Value * Q)) :=
  source ← call_filter_data data flag;
  source ← aggregate_percent source "EDUCATION";
  chart ← show_pie source "EDUCATION";
  mret (source, chart).

(** Top-10 industries (lines 300-310). *)
Definition tab2_industries (data : loc) (flag : Z) : M (loc * list (Value * Q)) :=
  source ← call_filter_data data flag;
  source ← exclude_str source "GEN_INDUSTRY" "not_applicable";
  bucket_top10 source "GEN_INDUSTRY" "GEN_INDUSTRY" other_industries;;
  source ← aggregate_percent source "GEN_INDUSTRY";
  chart ← show_pie source "GEN_INDUSTRY";
  mret (source, chart).

(** Top-10 job titles (lines 312-321): line 319 assigns the bucketed titles
    to [source['GEN_INDUSTRY']], line 320 counts [source.GEN_TITLE]. *)
Definition tab2_titles (data : loc) (flag : Z) : M (loc * list (Value * Q)) :=
  source ← call_filter_data data flag;
  source ← exclude_str source "GEN_TITLE" "not_applicable";
  bucket_top10 source "GEN_TITLE" "GEN_INDUSTRY" other_titles;;
  source ← aggregate_percent source "GEN_TITLE";
  chart ← show_pie source "GEN_TITLE";
  mret (source, chart).

(** Time at the current job (lines 323-329). *)
Definition tab2_work_time (data : loc) (flag : Z) : M (loc * list (Value * Q)) :=
  source ← call_filter_data data flag;
  source ← aggregate source "WORK_TIME";
  source ← keep_positive source "WORK_TIME";
  chart ← show_bar source "WORK_TIME";
  mret (source, chart).

(** ** [load_data] (lines 21-32)

    The file system maps a path to the table [pd.read_csv] parses from it. *)

Definition FileSystem := string → option DataFrame.

Definition read_csv (fs : FileSystem) (path : string) : Result DataFrame :=
  match fs path with
  | Some df => Ok df
  | None => Raise (FileNotFoundError path)
  end.

Definition DATA_PATH : string := "datasets/data_full.csv".

(** [data = pd.read_csv(DATA_PATH); return data] *)
Definition load_data (fs : FileSystem) (data_path : string) : Result DataFrame :=
  data ← read_csv fs DATA_PATH;
  mret data.

(** [@st.cache_data]: results are remembered by argument. *)
Fixpoint cache_lookup {V : Type} (k : string) (cache : list (string * V)) : option V :=
  match cache with
  | [] => None
  | (k', v) :: cache' => if decide (k' = k) then Some v else cache_lookup k cache'
  end.

Definition cache_data {V : Type} (f : string → Result V)
    (cache : list (string * V)) (k : string) : Result V * list (string * V) :=
  match cache_lookup k cache with
  | Some v => (Ok v, cache)
  | None =>
      match f k with
      | Ok v => (Ok v, (k, v) :: cache)
      | Raise e => (Raise e, cache)
      end
  end.

Definition load_data_cached (fs : FileSystem) :=
  cache_data (load_data fs).

(** ** [phik_data] (lines 48-84) *)

Inductive FeatureType := categorical | ordinal | interval.

#[global] Instance FeatureType_eq_dec : EqDecision FeatureType.
Proof. solve_decision. Defined.

Definition data_types : list (string * FeatureType) :=
  [ ("TARGET", categorical);
    ("AGE", interval);
    ("GENDER", categorical);
    ("EDUCATION", categorical);
    ("MARITAL_STATUS", categorical);
    ("CHILD_TOTAL", ordinal);
    ("DEPENDANTS", ordinal);
    ("SOCSTATUS_WORK_FL", categorical);
    ("SOCSTATUS_PENS_FL", categorical);
    ("FL_PRESENCE_FL", categorical);
    ("OWN_AUTO", ordinal);
    ("WORK_TIME", interval);
    ("FAMILY_INCOME", ordinal);
    ("PERSONAL_INCOME", interval);
    ("LOAN_NUM_TOTAL", ordinal);
    ("LOAN_NUM_CLOSED", ordinal);
    ("CREDIT", interval);
    ("TERM", interval);
    ("FST_PAYMENT", interval) ]%string.

(** [list(data_types.keys())] *)
Definition fields : list string := data_types.*1.

(** [[col for col, v in data_types.items() if v == 'interval']] *)
Definition interval_cols : list string :=
  (List.filter (λ p, bool_decide (p.2 = interval)) data_types).*1.

(** [df[names]]: the named columns in the given order, [KeyError] at the
    first name the frame does not have. *)
Fixpoint positions (names cols : list string) : Result (list nat) :=
  match names with
  | [] => Ok []
  | n :: names' =>
      match index_of n cols with
      | Some i => ps ← positions names' cols; mret (i :: ps)
      | None => Raise (KeyError n)
      end
  end.

Definition getitem_cols (df : DataFrame) (names : list string) : Result DataFrame :=
  ps ← positions names (columns df);
  mret (mkDF names ((λ r, mkRow (label r) ((λ i, cell i r) <$> ps)) <$> rows df)).

(** A square table of scores as [phik_matrix] returns it: row labels, column
    labels and the score of a pair of labels, [None] where it is missing. *)
Record CorrMatrix := mkCorr {
  m_index : list string;
  m_columns : list string;
  m_at : string → string → option Q
}.

(** [.stack()]: one entry per row label and column label, row by row,
    without the missing ones. *)
Definition stack (m : CorrMatrix) : list (string * string * Q) :=
  a ← m_index m;
  b ← m_columns m;
  match m_at m a b with
  | Some q => [(a, b, q)]
  | None => []
  end.

(** The nearest integer, halves to the even neighbour. *)
Definition round_half_even (q : Q) : Z :=
  let n := Qfloor q in
  match Qcompare (q - inject_Z n) (1 # 2) with
  | Lt => n
  | Gt => n + 1
  | Eq => if Z.even n then n else n + 1
  end.

Definition digits (z : Z) : string := NilZero.string_of_uint (N.to_uint (Z.to_N z)).

(** A number of tenths in decimal notation: sign, integer part, point, one
    digit. *)
Definition tenths_string (negative : bool) (t : Z) : string :=
  ((if negative then "-" else "")
   +:+ digits (t / 10) +:+ "." +:+ digits (t mod 10))%string.

Definition is_negative (q : Q) : bool :=
  match Qcompare q 0 with
  | Lt => true
  | _ => false
  end.

(** ['{:.1f}'.format]: the value in tenths, rounded, in decimal notation. *)
Definition format_1f (q : Q) : string :=
  tenths_string (is_negative q) (Z.abs (round_half_even (q * 10))).

(** A row of the long table: [variable], [variable2], [correlation] and
    [correlation_label]. *)
Record CorrRow := mkCorrRow {
  variable : string;
  variable2 : string;
  correlation : Q;
  correlation_label : string
}.

(** [phik_data]. The score computation is the [phik] package's
    [phik_matrix], a parameter here; [reset_index] and [rename] name the two
    index levels [variable] and [variable2] and the value [correlation]. *)
Definition phik_data
    (phik_matrix : DataFrame → list string → nat → CorrMatrix)
    (df : DataFrame) : Result (list CorrRow) :=
  sel ← getitem_cols df fields;
  let corr_matrix := stack (phik_matrix sel interval_cols 20%nat) in
  mret ((λ '(a, b, q), mkCorrRow a b q (format_1f q)) <$> corr_matrix).

(** Modelled from the spec: the score computation of the external [phik]
    package ([phik_matrix]), which is not part of the repository. Section
    4.4 of the specification: interval fields are discretised into [bins]
    bins, the other fields are used as they are; every unordered pair of
    fields gets one score, and a field paired with itself the score 1. The
    discretisation and the statistic of two prepared columns are
    parameters. *)
Definition association_matrix
    (discretize : nat → list Value → list Value)
    (pair_score : list Value → list Value → Q)
    (sel : DataFrame) (interval_cols : list string) (bins : nat) : CorrMatrix :=
  let prepared (name : string) (i : nat) : list Value :=
    if bool_decide (name ∈ interval_cols)
    then discretize bins (cell i <$> rows sel)
    else cell i <$> rows sel in
  mkCorr (columns sel) (columns sel)
    (λ a b,
       match index_of a (columns sel), index_of b (columns sel) with
       | Some i, Some j =>
           Some (if decide (i = j) then 1%Q
                 else if decide (i < j)%nat
                      then pair_score (prepared a i) (prepared b j)
                      else pair_score (prepared b j) (prepared a i))
       | _, _ => None
       end).

(** [source = phik_data(data)] (line 418) *)
Definition call_phik_data
    (phik_matrix : DataFrame → list string → nat → CorrMatrix)
    (data : loc) : M (list CorrRow) :=
  df ← load data;
  lift (phik_data phik_matrix df).

(** ** Vocabulary of the properties *)

(** The filter stage in the words of the specification: the rows whose label
    field equals the given value, in their original order. *)
Definition rows_with_target (i : nat) (v : Z) (rs : list Row) : list Row :=
  filter (λ r, cells r !! i = Some (VInt v)) rs.

(** A frame is rectangular: every row has one cell per column. *)
Definition wf_frame (df : DataFrame) : Prop :=
  ∀ r, r ∈ rows df → length (cells r) = length (columns df).

(** Every row has a [TARGET] cell holding [0] or [1]. *)
Definition binary_target (df : DataFrame) : Prop :=
  ∃ i, index_of "TARGET" (columns df) = Some i ∧
       ∀ r, r ∈ rows df → cells r !! i = Some (VInt 0) ∨ cells r !! i = Some (VInt 1).

(** How often [v] occurs in a column. *)
Definition occurrences (v : Value) (col : list Value) : nat :=
  length (filter (λ x, x = v) col).

(** The count a table of counters gives for [v], [0] without a counter. *)
Definition count_in (v : Value) (vc : list (Value * nat)) : nat :=
  sum_list_with snd (filter (λ p, p.1 = v) vc).


(** The cells of the rows [reset_index] makes of a table of counters. *)
Definition count_cells (vc : list (Value * nat)) : list (list Value) :=
  (λ e, [e.1; VInt (Z.of_nat e.2)]) <$> vc.

(** The shares a chart shows for a table of counters: every count over the
    sum of the counts. *)
Definition shares_of (vc : list (Value * nat)) : list (Value * Q) :=
  zip vc.*1 (share (sumZ ((λ e, Z.of_nat e.2) <$> vc)) <$> ((λ e, Z.of_nat e.2) <$> vc)).




(** A stage that takes a table leaves that table as it found it. *)
Definition leaves_input_unchanged {A : Type} (stage : loc → M A) : Prop :=
  ∀ (h : Heap) (l : loc) (df : DataFrame),
    h !! l = Some df → (stage l h).2 !! l = Some df.

(** From a heap satisfying [pre], [m] ends in a heap satisfying [post] with
    its result, or [exc] when it raises. *)
Definition hoare {A : Type} (pre : Heap → Prop) (m : M A)
    (post : A → Heap → Prop) (exc : Heap → Prop) : Prop :=
  ∀ h, pre h →
    match m h with
    | (Ok a, h') => post a h'
    | (Raise _, h') => exc h'
    end.

(** ** Tables used in the examples *)

(** Four clients: [TARGET] = 1, 0, 1, 1 and [GENDER] = 1, 1, 0, 1. *)
Definition T4 : DataFrame :=
  mkDF ["TARGET"; "GENDER"]%string
       [ mkRow 0 [VInt 1; VInt 1];
         mkRow 1 [VInt 0; VInt 1];
         mkRow 2 [VInt 1; VInt 0];
         mkRow 3 [VInt 1; VInt 1] ].

(** Another table, standing for a second CSV file. *)
Definition T_other : DataFrame :=
  mkDF ["TARGET"; "GENDER"]%string [ mkRow 0 [VInt 0; VInt 0] ].

(** A file system with the data set and a second file. *)
Definition fs2 : FileSystem := λ path,
  if decide (path = DATA_PATH) then Some T4
  else if decide (path = "datasets/other.csv"%string) then Some T_other
  else None.

(** Working clients of twelve industries and twelve job titles: ten of each
    occur twice, two occur once; one client who does not work; one client who
    did not respond. *)
Definition T_jobs : DataFrame :=
  mkDF ["TARGET"; "GEN_INDUSTRY"; "GEN_TITLE"; "WORK_TIME"]%string
       [ mkRow 0 [VInt 1; VStr "i01"; VStr "t01"; VInt 12];
         mkRow 1 [VInt 1; VStr "i01"; VStr "t01"; VInt 18];
         mkRow 2 [VInt 1; VStr "i02"; VStr "t02"; VInt 24];
         mkRow 3 [VInt 1; VStr "i02"; VStr "t02"; VInt 30];
         mkRow 4 [VInt 1; VStr "i03"; VStr "t03"; VInt 36];
         mkRow 5 [VInt 1; VStr "i03"; VStr "t03"; VInt 42];
         mkRow 6 [VInt 1; VStr "i04"; VStr "t04"; VInt 48];
         mkRow 7 [VInt 1; VStr "i04"; VStr "t04"; VInt 54];
         mkRow 8 [VInt 1; VStr "i05"; VStr "t05"; VInt 60];
         mkRow 9 [VInt 1; VStr "i05"; VStr "t05"; VInt 66];
         mkRow 10 [VInt 1; VStr "i06"; VStr "t06"; VInt 72];
         mkRow 11 [VInt 1; VStr "i06"; VStr "t06"; VInt 78];
         mkRow 12 [VInt 1; VStr "i07"; VStr "t07"; VInt 84];
         mkRow 13 [VInt 1; VStr "i07"; VStr "t07"; VInt 90];
         mkRow 14 [VInt 1; VStr "i08"; VStr "t08"; VInt 96];
         mkRow 15 [VInt 1; VStr "i08"; VStr "t08"; VInt 102];
         mkRow 16 [VInt 1; VStr "i09"; VStr "t09"; VInt 108];
         mkRow 17 [VInt 1; VStr "i09"; VStr "t09"; VInt 114];
         mkRow 18 [VInt 1; VStr "i10"; VStr "t10"; VInt 120];
         mkRow 19 [VInt 1; VStr "i10"; VStr "t10"; VInt 126];
         mkRow 20 [VInt 1; VStr "i11"; VStr "t11"; VInt 3];
         mkRow 21 [VInt 1; VStr "i12"; VStr "t12"; VInt 4];
         mkRow 22 [VInt 1; VStr "not_applicable"; VStr "not_applicable"; VInt (-1)];
         mkRow 23 [VInt 0; VStr "i01"; VStr "t01"; VInt 7] ].



(** One client with all the fields of the correlation table. *)
Definition T19 : DataFrame :=
  mkDF fields
       [ mkRow 0 [ VInt 1; VInt 35; VInt 1; VStr "higher"; VStr "married";
                   VInt 2; VInt 1; VInt 1; VInt 0; VInt 1; VInt 1; VInt 48;
                   VStr "20000-50000"; VInt 30000; VInt 2; VInt 1;
                   VInt 15000; VInt 12; VInt 3000 ] ].

(** ** Session state (lines 12-18 and 87-93)

    [st.session_state] is a dictionary; the entries the page uses hold
    booleans. *)

(** [f"TARGET_{suffix}"] *)
Definition flag_key (suffix : string) : string := ("TARGET_" +:+ suffix)%string.

(** [if key not in st.session_state: st.session_state[key] = False] *)
Definition init_flag (key : string) (st : gmap string bool) : gmap string bool :=
  match st !! key with
  | Some _ => st
  | None => <[key:=false]> st
  end.

(** Lines 13-18. *)
Definition init_session_state (st : gmap string bool) : gmap string bool :=
  init_flag "TARGET_CREDIT" (init_flag "TARGET_MONEY" (init_flag "TARGET_DEMO" st)).

(** [from_callback]:
    [st.session_state[f"TARGET_{suffix}"] = not st.session_state[f"TARGET_{suffix}"]];
    reading a key the state does not have raises [KeyError]. *)
Definition from_callback (suffix : string) (st : gmap string bool) :
    Result (gmap string bool) :=
  match st !! flag_key suffix with
  | Some b => Ok (<[flag_key suffix:=negb b]> st)
  | None => Raise (KeyError (flag_key suffix))
  end.

(** The suffixes the three toggles pass to [from_callback]. *)
Definition suffixes : list string := ["DEMO"; "MONEY"; "CREDIT"]%string.

(** ** The other sections of the page

    Apart from the job columns every section follows one of three patterns:
    counts shown as bars, counts with the values 1 and 0 replaced by words
    shown as bars, counts renamed to [percent] shown as a pie. *)

(** The word a dictionary of replacements has for [z]. *)
Fixpoint replacement (mapping : list (Z * string)) (z : Z) : option string :=
  match mapping with
  | [] => None
  | (k, s) :: mapping' => if decide (k = z) then Some s else replacement mapping' z
  end.

Definition replace_value (mapping : list (Z * string)) (x : Value) : Value :=
  match x with
  | VInt z =>
      match replacement mapping z with
      | Some s => VStr s
      | None => x
      end
  | _ => x
  end.

(** [df.replace({1: ..., 0: ...})]: every cell of the frame that equals a key
    of the dictionary is replaced, in whatever column it stands. *)
Definition replace (mapping : list (Z * string)) (df : DataFrame) : DataFrame :=
  mkDF (columns df)
       ((λ r, mkRow (label r) (replace_value mapping <$> cells r)) <$> rows df).

(** [source.COL.value_counts().reset_index().replace({...})] *)
Definition aggregate_replace (source : loc) (col : string)
    (mapping : list (Z * string)) : M loc :=
  df ← load source;
  c ← lift (getitem_col df col);
  alloc (replace mapping (reset_index col (value_counts c))).

(** [source = filter_data(data, flag).FIELD.value_counts().reset_index()]
    and [bar_chart(source, 'FIELD:..', ...)] *)
Definition section_bar (data : loc) (flag : Z) (field : string) :
    M (loc * list (Value * Q)) :=
  source ← call_filter_data data flag;
  source ← aggregate source field;
  chart ← show_bar source field;
  mret (source, chart).

(** The same with [.replace({...})] after [reset_index()]. *)
Definition section_bar_replace (data : loc) (flag : Z) (field : string)
    (mapping : list (Z * string)) : M (loc * list (Value * Q)) :=
  source ← call_filter_data data flag;
  source ← aggregate_replace source field mapping;
  chart ← show_bar source field;
  mret (source, chart).

(** [source = filter_data(data, flag).FIELD.value_counts().reset_index()
    .rename(columns={'count': 'percent'})] and [pie_chart(source, 'FIELD')] *)
Definition section_pie (data : loc) (flag : Z) (field : string) :
    M (loc * list (Value * Q)) :=
  source ← call_filter_data data flag;
  source ← aggregate_percent source field;
  chart ← show_pie source field;
  mret (source, chart).

Definition men_women : list (Z * string) := [(1, "Мужчины"); (0, "Женщины")]%string.
Definition yes_no : list (Z * string) := [(1, "да"); (0, "нет")]%string.

(** Tab 1 (lines 193-244). *)
Definition tab1_gender data flag := section_bar_replace data flag "GENDER" men_women.
Definition tab1_age data flag := section_bar data flag "AGE".
Definition tab1_child_total data flag := section_bar data flag "CHILD_TOTAL".
Definition tab1_dependants data flag := section_bar data flag "DEPENDANTS".
Definition tab1_work data flag := section_bar_replace data flag "SOCSTATUS_WORK_FL" yes_no.
Definition tab1_pens data flag := section_bar_replace data flag "SOCSTATUS_PENS_FL" yes_no.

(** Tab 2, assets and income (lines 273-295). *)
Definition tab2_flat data flag := section_bar_replace data flag "FL_PRESENCE_FL" yes_no.
Definition tab2_own_auto data flag := section_bar data flag "OWN_AUTO".
Definition tab2_personal_income data flag := section_bar data flag "PERSONAL_INCOME".
Definition tab2_family_income data flag := section_pie data flag "FAMILY_INCOME".

(** Tab 3 (lines 356-383). *)
Definition tab3_credit data flag := section_bar data flag "CREDIT".
Definition tab3_term data flag := section_bar data flag "TERM".
Definition tab3_fst_payment data flag := section_bar data flag "FST_PAYMENT".
Definition tab3_loan_num_total data flag := section_bar data flag "LOAN_NUM_TOTAL".
Definition tab3_loan_num_closed data flag := section_bar data flag "LOAN_NUM_CLOSED".

Definition worded_fields : list (string * list (Z * string)) :=
  [("GENDER", men_women); ("SOCSTATUS_WORK_FL", yes_no);
   ("SOCSTATUS_PENS_FL", yes_no); ("FL_PRESENCE_FL", yes_no)]%string.

(** A table with the binary columns of the first two tabs: three men, one
    woman; all four work; two pensioners. *)
Definition T_flags : DataFrame :=
  mkDF ["TARGET"; "GENDER"; "SOCSTATUS_PENS_FL"]%string
       [ mkRow 0 [VInt 1; VInt 1; VInt 0];
         mkRow 1 [VInt 1; VInt 1; VInt 1];
         mkRow 2 [VInt 1; VInt 0; VInt 1];
         mkRow 3 [VInt 1; VInt 1; VInt 0] ].

(** * Properties *)

(** ** Generic facts on lists, columns and results *)

(** Case analysis on membership in an explicit list. *)
Ltac elem_cases H :=
  repeat (apply elem_of_cons in H as [H|H]; [subst|]);
  try (by apply elem_of_nil in H).

Lemma index_of_Some name cols :
  name ∈ cols → ∃ i, index_of name cols = Some i.
Proof.
  induction cols as [|c cols IH]; intros Hin.
  - by apply elem_of_nil in Hin.
  - simpl. destruct (decide (c = name)) as [->|Hne]; [by eexists|].
    apply elem_of_cons in Hin as [->|Hin]; [done|].
    destruct (IH Hin) as [i ->]. by eexists.
Qed.

Lemma index_of_lookup name cols i :
  index_of name cols = Some i → cols !! i = Some name.
Proof.
  revert i. induction cols as [|c cols IH]; intros i; simpl; [done|].
  destruct (decide (c = name)) as [->|Hne].
  - by intros [= <-].
  - destruct (index_of name cols) as [j|]; simpl; [|done].
    intros [= <-]. simpl. by apply IH.
Qed.

Lemma select_fmap {A : Type} (p : A → bool) (l : list A) :
  select (p <$> l) l = List.filter p l.
Proof.
  induction l as [|x l IH]; csimpl; [done|].
  destruct (p x); by rewrite IH.
Qed.

Lemma select_fmap_fmap {A B : Type} (p : B → bool) (f : A → B) (l : list A) :
  select (p <$> (f <$> l)) l = List.filter (λ x, p (f x)) l.
Proof. rewrite <- list_fmap_compose. apply (select_fmap (p ∘ f)). Qed.

Lemma select_fmap_other {A B : Type} (m : A → bool) (f : A → B) (l : list A) :
  select (m <$> l) (f <$> l) = f <$> List.filter m l.
Proof.
  induction l as [|x l IH]; csimpl; [done|].
  destruct (m x); csimpl; by rewrite IH.
Qed.

Lemma List_filter_sublist {A : Type} (p : A → bool) (l : list A) :
  sublist (List.filter p l) l.
Proof.
  induction l as [|x l IH]; simpl; [constructor|].
  destruct (p x); by constructor.
Qed.

Lemma List_filter_as_filter {A : Type} (p : A → bool) (P : A → Prop)
    `{!∀ x, Decision (P x)} (l : list A) :
  (∀ x, p x = true ↔ P x) → List.filter p l = filter P l.
Proof.
  intros Hp. induction l as [|x l IH]; [done|].
  simpl. rewrite filter_cons. destruct (decide (P x)) as [HP|HP].
  - apply Hp in HP. rewrite HP. by f_equal.
  - destruct (p x) eqn:Hpx; [by apply Hp in Hpx|done].
Qed.

Lemma List_filter_split_length {A : Type} (p q : A → bool) (l : list A) :
  (∀ x, x ∈ l → p x = negb (q x)) →
  (length (List.filter p l) + length (List.filter q l) = length l)%nat.
Proof.
  induction l as [|x l IH]; intros Hpq; [done|].
  simpl. rewrite (Hpq x) by left.
  destruct (q x); simpl; rewrite <- IH; try lia;
    intros y Hy; apply Hpq; by right.
Qed.

Lemma value_eq_int_cell v i r :
  value_eq_int v (cell i r) = true ↔ cells r !! i = Some (VInt v).
Proof.
  unfold cell. destruct (cells r !! i) as [[z|s|]|]; simpl;
    rewrite ?bool_decide_eq_true; naive_solver.
Qed.

(** ** [filter_data] *)

Lemma filter_data_eq df v i :
  index_of "TARGET" (columns df) = Some i →
  filter_data df v =
  Ok (mkDF (columns df) (List.filter (λ r, value_eq_int v (cell i r)) (rows df))).
Proof.
  intros Hi. unfold filter_data, getitem_col. rewrite Hi. simpl.
  unfold getitem_mask. by rewrite select_fmap_fmap.
Qed.

Lemma filter_data_column df v i f c :
  index_of "TARGET" (columns df) = Some i →
  getitem_col df f = Ok c →
  getitem_col (mkDF (columns df)
                 (List.filter (λ r, value_eq_int v (cell i r)) (rows df))) f =
  Ok (select (value_eq_int v <$> (cell i <$> rows df)) c).
Proof.
  intros Hi. unfold getitem_col. simpl.
  destruct (index_of f (columns df)) as [j|]; [|done].
  intros [= <-]. f_equal.
  rewrite <- list_fmap_compose.
  by rewrite (select_fmap_other (value_eq_int v ∘ cell i) (cell j)).
Qed.

(** C1. For a table with a [TARGET] column, [filter_data] returns the rows
    whose [TARGET] cell is the selected label, in their original order; when
    every [TARGET] is 0 or 1, the rows kept for a label and the rows kept for
    the complementary label add up to all rows. *)
Theorem filter_data_exact (T : DataFrame) (v : Z) :
  "TARGET" ∈ columns T →
  ∃ i out,
    index_of "TARGET" (columns T) = Some i ∧
    filter_data T v = Ok out ∧
    rows out = rows_with_target i v (rows T) ∧
    sublist (rows out) (rows T) ∧
    (binary_target T → v = 0 ∨ v = 1 →
     ∃ out', filter_data T (1 - v) = Ok out' ∧
             (length (rows out) + length (rows out') = length (rows T))%nat).
Proof.
  intros Hcol. destruct (index_of_Some _ _ Hcol) as [i Hi].
  exists i, (mkDF (columns T) (List.filter (λ r, value_eq_int v (cell i r)) (rows T))).
  split; [done|]. split; [by apply filter_data_eq|]. simpl.
  split; [|split].
  - apply List_filter_as_filter. intros r. apply value_eq_int_cell.
  - apply List_filter_sublist.
  - intros (j & Hj & Hbin) Hv. rewrite Hi in Hj. injection Hj as <-.
    eexists. split; [by apply filter_data_eq|]. simpl.
    apply List_filter_split_length. intros r Hr.
    unfold cell. destruct (Hbin r Hr) as [-> | ->]; simpl;
      destruct Hv as [-> | ->]; done.
Qed.

Lemma filter_data_exact_witness :
  ∃ out out',
    filter_data T4 1 = Ok out ∧ filter_data T4 0 = Ok out' ∧
    length (rows out) = 3%nat ∧ length (rows out') = 1%nat ∧
    (length (rows out) + length (rows out') = length (rows T4))%nat.
Proof.
  assert (Hcol : "TARGET" ∈ columns T4) by (simpl; left).
  destruct (filter_data_exact T4 1 Hcol) as (i & out & Hi & Hout & Hrows & _ & Hsum).
  assert (Hbin : binary_target T4).
  { exists 0%nat. split; [done|]. intros r Hr. simpl in Hr.
    elem_cases Hr; simpl; auto. }
  destruct (Hsum Hbin (or_intror eq_refl)) as (out' & Hout' & Hlen).
  exists out, out'. simpl in Hout'. split; [done|]. split; [done|].
  vm_compute in Hout, Hout'. injection Hout as <-. injection Hout' as <-.
  by vm_compute.
Defined.

(** C10. Filtering removes rows only: the result has the columns of the
    input, in the same order; its rows are rows of the input, in order, each
    with its label and all its cells; and every column of the result is the
    column of the input at the kept positions. *)
Theorem filter_data_frame (T : DataFrame) (v : Z) :
  "TARGET" ∈ columns T →
  ∃ out target,
    filter_data T v = Ok out ∧
    getitem_col T "TARGET" = Ok target ∧
    columns out = columns T ∧
    sublist (rows out) (rows T) ∧
    (∀ r, r ∈ rows out → r ∈ rows T) ∧
    (∀ f c, getitem_col T f = Ok c →
            getitem_col out f = Ok (select (value_eq_int v <$> target) c)) ∧
    (∀ f e, getitem_col T f = Raise e → getitem_col out f = Raise e).
Proof.
  intros Hcol. destruct (index_of_Some _ _ Hcol) as [i Hi].
  exists (mkDF (columns T) (List.filter (λ r, value_eq_int v (cell i r)) (rows T))),
         (cell i <$> rows T).
  split; [by apply filter_data_eq|].
  split; [unfold getitem_col; by rewrite Hi|].
  split; [done|]. simpl.
  split; [apply List_filter_sublist|].
  split; [|split].
  - intros r Hr. eapply elem_of_sublist; [done|apply List_filter_sublist].
  - intros f c Hc. by apply filter_data_column.
  - intros f e. unfold getitem_col. simpl.
    by destruct (index_of f (columns T)).
Qed.

Lemma filter_data_frame_witness :
  ∃ out,
    filter_data T4 1 = Ok out ∧
    columns out = ["TARGET"; "GENDER"]%string ∧
    getitem_col out "GENDER" = Ok [VInt 1; VInt 0; VInt 1].
Proof.
  assert (Hcol : "TARGET" ∈ columns T4) by (simpl; left).
  destruct (filter_data_frame T4 1 Hcol)
    as (out & target & Hout & Htarget & Hcols & _ & _ & Hkeep & _).
  exists out. split; [done|]. split; [done|].
  vm_compute in Htarget. injection Htarget as <-.
  by rewrite (Hkeep "GENDER"%string [VInt 1; VInt 1; VInt 0; VInt 1]).
Defined.

(** C8 as stated fails: the label 2 is outside {0, 1}, and [filter_data]
    returns a table, the empty one, not an error. *)
Lemma filter_data_label_2_returns :
  2 ≠ 0 ∧ 2 ≠ 1 ∧
  filter_data T4 2 = Ok (mkDF ["TARGET"; "GENDER"]%string []) ∧
  ∀ e, filter_data T4 2 ≠ Raise e.
Proof. repeat split; [lia | lia | intros e; vm_compute; discriminate]. Qed.

(** C8, amended. [filter_data] validates nothing: for a table with a
    [TARGET] column it returns a table for every label value; for a label
    outside {0, 1} on a table whose [TARGET] cells are all 0 or 1, the table
    returned has the columns of the input and no rows. *)
Theorem filter_data_never_rejects (T : DataFrame) (v : Z) :
  "TARGET" ∈ columns T →
  ∃ out,
    filter_data T v = Ok out ∧
    columns out = columns T ∧
    (binary_target T → v ≠ 0 → v ≠ 1 → rows out = []).
Proof.
  intros Hcol. destruct (index_of_Some _ _ Hcol) as [i Hi].
  eexists. split; [by apply filter_data_eq|]. split; [done|]. simpl.
  intros (j & Hj & Hbin) Hv0 Hv1. rewrite Hi in Hj. injection Hj as <-.
  assert (Hall : ∀ rs : list Row, (∀ r, r ∈ rs → r ∈ rows T) →
            List.filter (λ r, value_eq_int v (cell i r)) rs = []).
  { induction rs as [|r rs IH]; intros Hsub; [done|]. simpl.
    replace (value_eq_int v (cell i r)) with false.
    - apply IH. intros r' Hr'. apply Hsub. by right.
    - unfold cell. destruct (Hbin r (Hsub r ltac:(left))) as [-> | ->]; simpl;
        symmetry; apply bool_decide_eq_false; lia. }
  by apply Hall.
Qed.

Lemma filter_data_never_rejects_witness :
  ∃ out, filter_data T4 2 = Ok out ∧ rows out = [].
Proof.
  assert (Hcol : "TARGET" ∈ columns T4) by (simpl; left).
  destruct (filter_data_never_rejects T4 2 Hcol) as (out & Hout & _ & Hrows).
  exists out. split; [done|]. apply Hrows; [|lia|lia].
  exists 0%nat. split; [done|]. intros r Hr. simpl in Hr.
  elem_cases Hr; simpl; auto.
Defined.

(** The scenario of the specification: of four clients with [TARGET] 1, 0,
    1, 1 and [GENDER] 1, 1, 0, 1, three have responded, two of gender 1 and
    one of gender 0. *)
Example filter_then_count_gender :
  (df ← filter_data T4 1;
   col ← getitem_col df "GENDER";
   mret (length (rows df), value_counts col)) =
  Ok (3%nat, [(VInt 1, 2%nat); (VInt 0, 1%nat)]).
Proof. reflexivity. Qed.

(** ** Counting *)

Lemma count_in_cons v w n vc :
  count_in v ((w, n) :: vc) =
  ((if decide (w = v) then n else 0) + count_in v vc)%nat.
Proof.
  unfold count_in. rewrite filter_cons. simpl.
  by destruct (decide (w = v)).
Qed.

Lemma occurrences_cons v x col :
  occurrences v (x :: col) =
  ((if decide (x = v) then 1 else 0) + occurrences v col)%nat.
Proof.
  unfold occurrences. rewrite filter_cons.
  by destruct (decide (x = v)).
Qed.

Lemma count_in_notin v vc : v ∉ vc.*1 → count_in v vc = 0%nat.
Proof.
  induction vc as [|[w n] vc IH]; intros Hv; [done|].
  rewrite count_in_cons. csimpl in Hv. apply not_elem_of_cons in Hv as [Hne Hv].
  rewrite IH by done. destruct (decide (w = v)); [congruence|done].
Qed.

Lemma count_in_elem v c vc :
  NoDup vc.*1 → (v, c) ∈ vc → count_in v vc = c.
Proof.
  induction vc as [|[w n] vc IH]; intros Hnd Hin.
  - by apply elem_of_nil in Hin.
  - csimpl in Hnd. apply NoDup_cons in Hnd as [Hw Hnd].
    rewrite count_in_cons. apply elem_of_cons in Hin as [[= <- <-]|Hin].
    + rewrite decide_True by done. rewrite count_in_notin by done. lia.
    + destruct (decide (w = v)) as [->|Hne].
      * exfalso. apply Hw. apply list_elem_of_fmap. by exists (v, c).
      * by rewrite IH.
Qed.

(** ** [bump] and [tally] *)

Lemma bump_count_in w v acc :
  count_in w (bump v acc) =
  (count_in w acc + if decide (v = w) then 1 else 0)%nat.
Proof.
  induction acc as [|[u n] acc IH]; simpl.
  - rewrite count_in_cons. unfold count_in. simpl.
    destruct (decide (v = w)); lia.
  - destruct (decide (u = v)) as [->|Hne]; rewrite !count_in_cons.
    + destruct (decide (v = w)); lia.
    + rewrite IH. lia.
Qed.

Lemma bump_keys v acc x : x ∈ (bump v acc).*1 ↔ x = v ∨ x ∈ acc.*1.
Proof.
  induction acc as [|[u n] acc IH]; csimpl.
  - rewrite list_elem_of_singleton, elem_of_nil. tauto.
  - destruct (decide (u = v)) as [->|Hne]; csimpl;
      rewrite !elem_of_cons; [|rewrite IH]; intuition congruence.
Qed.

Lemma bump_NoDup v acc : NoDup acc.*1 → NoDup (bump v acc).*1.
Proof.
  induction acc as [|[u n] acc IH]; csimpl; intros Hnd.
  - apply NoDup_singleton.
  - apply NoDup_cons in Hnd as [Hu Hnd].
    destruct (decide (u = v)) as [->|Hne]; csimpl; apply NoDup_cons.
    + done.
    + split; [|by apply IH]. rewrite bump_keys. intuition congruence.
Qed.

Lemma bump_sum v acc : sum_list_with snd (bump v acc) = S (sum_list_with snd acc).
Proof.
  induction acc as [|[u n] acc IH]; simpl; [done|].
  destruct (decide (u = v)); simpl; [done|]. rewrite IH. lia.
Qed.

Section tally.
Local Abbreviation step := (λ (acc : list (Value * nat)) (v : Value), bump v acc).

Lemma tally_from_count_in w col acc :
  count_in w (fold_left step col acc) = (count_in w acc + occurrences w col)%nat.
Proof.
  revert acc. induction col as [|x col IH]; intros acc; simpl.
  - unfold occurrences. simpl. lia.
  - rewrite IH, bump_count_in, occurrences_cons. lia.
Qed.

Lemma tally_from_keys x col acc :
  x ∈ (fold_left step col acc).*1 ↔ x ∈ acc.*1 ∨ x ∈ col.
Proof.
  revert acc. induction col as [|y col IH]; intros acc; simpl.
  - rewrite elem_of_nil. tauto.
  - rewrite IH, bump_keys, elem_of_cons. intuition congruence.
Qed.

Lemma tally_from_NoDup col acc :
  NoDup acc.*1 → NoDup (fold_left step col acc).*1.
Proof.
  revert acc. induction col as [|y col IH]; intros acc Hnd; simpl; [done|].
  apply IH. by apply bump_NoDup.
Qed.

Lemma tally_from_sum col acc :
  sum_list_with snd (fold_left step col acc) =
  (sum_list_with snd acc + length col)%nat.
Proof.
  revert acc. induction col as [|y col IH]; intros acc; simpl; [lia|].
  rewrite IH, bump_sum. lia.
Qed.
End tally.

(** ** Sorting by descending count *)

Lemma insert_desc_perm x l : insert_desc x l ≡ₚ x :: l.
Proof.
  induction l as [|y l IH]; simpl; [done|].
  destruct (decide (y.2 ≤ x.2)%nat); [done|].
  rewrite IH. apply Permutation_swap.
Qed.

Lemma sort_desc_perm l : sort_desc l ≡ₚ l.
Proof.
  induction l as [|x l IH]; simpl; [done|].
  rewrite insert_desc_perm. by rewrite IH.
Qed.










(** ** What [value_counts] returns *)

Lemma length_List_filter_notna col :
  (∀ x, x ∈ col → x ≠ VNaN) → List.filter notna col = col.
Proof.
  induction col as [|x col IH]; intros Hna; [done|]. simpl.
  destruct x; simpl; try (f_equal; apply IH; intros y Hy; apply Hna; by right).
  exfalso. by apply (Hna VNaN); [left|].
Qed.

Lemma occurrences_filter_notna v col :
  v ≠ VNaN → occurrences v (List.filter notna col) = occurrences v col.
Proof.
  intros Hv. induction col as [|x col IH]; [done|]. simpl.
  destruct x; simpl; rewrite ?occurrences_cons, ?IH; try done.
  by rewrite decide_False.
Qed.

Lemma count_in_perm v l k : l ≡ₚ k → count_in v l = count_in v k.
Proof. intros Hp. unfold count_in. by rewrite Hp. Qed.

Lemma value_counts_NoDup col : NoDup (value_counts col).*1.
Proof.
  unfold value_counts. rewrite sort_desc_perm.
  apply tally_from_NoDup. constructor.
Qed.

Lemma value_counts_keys x col :
  x ∈ (value_counts col).*1 ↔ x ∈ col ∧ x ≠ VNaN.
Proof.
  unfold value_counts. rewrite sort_desc_perm.
  unfold tally. rewrite tally_from_keys. simpl. rewrite elem_of_nil.
  rewrite list_elem_of_In, filter_In, <- list_elem_of_In.
  destruct x; simpl; intuition congruence.
Qed.

Lemma value_counts_count_in v col :
  v ≠ VNaN → count_in v (value_counts col) = occurrences v col.
Proof.
  intros Hv. unfold value_counts.
  rewrite (count_in_perm _ _ _ (sort_desc_perm _)).
  unfold tally. rewrite tally_from_count_in.
  by rewrite occurrences_filter_notna.
Qed.

(** Every counter holds the number of occurrences of its value. *)
Lemma value_counts_elem v c col :
  (v, c) ∈ value_counts col → v ≠ VNaN ∧ v ∈ col ∧ c = occurrences v col.
Proof.
  intros Hin.
  assert (Hk : v ∈ (value_counts col).*1).
  { apply list_elem_of_fmap. by exists (v, c). }
  apply value_counts_keys in Hk as [Hcol Hna].
  repeat split; [done..|].
  rewrite <- value_counts_count_in by done.
  symmetry. apply count_in_elem; [apply value_counts_NoDup|done].
Qed.

(** The counters add up to the number of values that are not missing. *)
Lemma value_counts_sum col :
  sum_list_with snd (value_counts col) = length (List.filter notna col).
Proof.
  unfold value_counts. rewrite sort_desc_perm.
  unfold tally. by rewrite tally_from_sum.
Qed.

(** ** Frames built by the stages *)

Lemma count_rows_cells start vc : cells <$> count_rows start vc = count_cells vc.
Proof.
  revert start. induction vc as [|[v c] vc IH]; intros start; csimpl; [done|].
  by rewrite IH.
Qed.

Lemma count_rows_keys start vc : cell 0 <$> count_rows start vc = vc.*1.
Proof.
  revert start. induction vc as [|[v c] vc IH]; intros start; csimpl; [done|].
  by rewrite IH.
Qed.

Lemma count_rows_counts start vc :
  cell 1 <$> count_rows start vc = (λ e, VInt (Z.of_nat e.2)) <$> vc.
Proof.
  revert start. induction vc as [|[v c] vc IH]; intros start; csimpl; [done|].
  by rewrite IH.
Qed.

Lemma numbers_counts (vc : list (Value * nat)) :
  numbers ((λ e, VInt (Z.of_nat e.2)) <$> vc) = Ok ((λ e, Z.of_nat e.2) <$> vc).
Proof.
  induction vc as [|[v c] vc IH]; csimpl; [done|]. by rewrite IH.
Qed.

Lemma getitem_col_reset_index name vc :
  getitem_col (reset_index name vc) name = Ok vc.*1.
Proof.
  unfold getitem_col. simpl. rewrite decide_True by done.
  by rewrite count_rows_keys.
Qed.

Lemma getitem_col_reset_index_count name vc :
  name ≠ "count"%string →
  getitem_col (reset_index name vc) "count" = Ok ((λ e, VInt (Z.of_nat e.2)) <$> vc).
Proof.
  intros Hne. unfold getitem_col. simpl. rewrite decide_False by done.
  simpl. by rewrite count_rows_counts.
Qed.

Lemma getitem_col_percent_keys name vc :
  name ≠ "count"%string →
  getitem_col (rename "count" "percent" (reset_index name vc)) name = Ok vc.*1.
Proof.
  intros Hne. unfold getitem_col. simpl.
  rewrite (decide_False (P := name = "count"%string)) by done.
  rewrite decide_True by done. by rewrite count_rows_keys.
Qed.

Lemma getitem_col_percent name vc :
  name ≠ "count"%string → name ≠ "percent"%string →
  getitem_col (rename "count" "percent" (reset_index name vc)) "percent" =
  Ok ((λ e, VInt (Z.of_nat e.2)) <$> vc).
Proof.
  intros Hne Hne'. unfold getitem_col. simpl.
  rewrite (decide_False (P := name = "count"%string)) by done.
  rewrite decide_False by done. simpl. by rewrite count_rows_counts.
Qed.

Lemma fmap_zip_with_l {A B C D : Type} (g : C → D) (g' : A → D)
    (f : A → B → C) (l : list A) (k : list B) :
  length l = length k → (∀ x y, x ∈ l → g (f x y) = g' x) →
  g <$> zip_with f l k = g' <$> l.
Proof.
  revert k. induction l as [|x l IH]; intros [|y k] Hlen Hg;
    simplify_eq/=; [done|]. csimpl. f_equal.
  - apply Hg. by left.
  - apply IH; [done|]. intros x' y' Hx'. apply Hg. by right.
Qed.

Lemma fmap_zip_with_r {A B C : Type} (g : C → B)
    (f : A → B → C) (l : list A) (k : list B) :
  length l = length k → (∀ x y, x ∈ l → g (f x y) = y) →
  g <$> zip_with f l k = k.
Proof.
  revert k. induction l as [|x l IH]; intros [|y k] Hlen Hg;
    simplify_eq/=; [done|]. csimpl. f_equal.
  - apply Hg. by left.
  - apply IH; [done|]. intros x' y' Hx'. apply Hg. by right.
Qed.

Lemma index_of_lt name cols i : index_of name cols = Some i → (i < length cols)%nat.
Proof. intros Hi. apply index_of_lookup in Hi. by apply lookup_lt_Some in Hi. Qed.


Lemma index_of_app_new name cols :
  index_of name cols = None → index_of name (cols ++ [name]) = Some (length cols).
Proof.
  induction cols as [|c cols IH]; simpl.
  - by rewrite decide_True.
  - destruct (decide (c = name)); [done|].
    destruct (index_of name cols); [done|]. intros _. by rewrite IH.
Qed.

(** Reading back the column just assigned. *)
Lemma setitem_same df name vals :
  wf_frame df → length vals = length (rows df) →
  getitem_col (setitem df name vals) name = Ok vals.
Proof.
  intros Hwf Hlen. unfold setitem, getitem_col.
  destruct (index_of name (columns df)) as [i|] eqn:Hi; simpl.
  - rewrite Hi. f_equal. apply fmap_zip_with_r; [done|].
    intros r v Hr. unfold cell. simpl.
    rewrite list_lookup_insert_eq; [done|].
    rewrite (Hwf r Hr). by eapply index_of_lt.
  - rewrite index_of_app_new by done. f_equal.
    apply fmap_zip_with_r; [done|].
    intros r v Hr. unfold cell. simpl.
    rewrite <- (Hwf r Hr). by rewrite list_lookup_middle.
Qed.


Lemma wf_frame_sublist cols rs rs' :
  wf_frame (mkDF cols rs) → sublist rs' rs → wf_frame (mkDF cols rs').
Proof.
  intros Hwf Hsub r Hr. simpl in *. apply Hwf. simpl.
  by eapply elem_of_sublist.
Qed.

Lemma bucket_length top other col : length (bucket top other col) = length col.
Proof. unfold bucket. by rewrite length_fmap. Qed.

(** ** Running the stages *)

Lemma lookup_snoc {A : Type} (h : list A) (x : A) : (h ++ [x]) !! length h = Some x.
Proof. by rewrite list_lookup_middle. Qed.

Lemma insert_snoc {A : Type} (h : list A) (x y : A) :
  <[length h:=y]> (h ++ [x]) = h ++ [y].
Proof.
  induction h as [|z h IH]; simpl; [done|]. by rewrite IH.
Qed.

Lemma call_filter_data_run (h : Heap) data df flag out :
  h !! data = Some df → filter_data df flag = Ok out →
  call_filter_data data flag h = (Ok (length h), h ++ [out]).
Proof.
  intros Hdf Hout. unfold call_filter_data, mbind, M_bind, load, lift, alloc.
  by rewrite Hdf, Hout.
Qed.

Lemma exclude_str_run (h : Heap) source df col sentinel c :
  h !! source = Some df → getitem_col df col = Ok c →
  exclude_str source col sentinel h =
  (Ok (length h), h ++ [getitem_mask df (value_ne_str sentinel <$> c)]).
Proof.
  intros Hdf Hc. unfold exclude_str, mbind, M_bind, load, lift, alloc.
  by rewrite Hdf, Hc.
Qed.

Lemma bucket_top10_run (h : Heap) source df src dst other c :
  h !! source = Some df → getitem_col df src = Ok c →
  bucket_top10 source src dst other h =
  (Ok (), <[source:=setitem df dst (bucket (top_values 10 c) other c)]> h).
Proof.
  intros Hdf Hc. unfold bucket_top10, mbind, M_bind, load, lift, store.
  by rewrite Hdf, Hc.
Qed.

Lemma aggregate_run (h : Heap) source df col c :
  h !! source = Some df → getitem_col df col = Ok c →
  aggregate source col h =
  (Ok (length h), h ++ [reset_index col (value_counts c)]).
Proof.
  intros Hdf Hc. unfold aggregate, mbind, M_bind, load, lift, alloc.
  by rewrite Hdf, Hc.
Qed.

Lemma aggregate_percent_run (h : Heap) source df col c :
  h !! source = Some df → getitem_col df col = Ok c →
  aggregate_percent source col h =
  (Ok (length h),
   h ++ [rename "count" "percent" (reset_index col (value_counts c))]).
Proof.
  intros Hdf Hc. unfold aggregate_percent, mbind, M_bind, load, lift, alloc.
  by rewrite Hdf, Hc.
Qed.


Lemma show_pie_run (h : Heap) source df feature chart :
  h !! source = Some df → pie_chart df feature = Ok chart →
  show_pie source feature h = (Ok chart, h).
Proof.
  intros Hdf Hc. unfold show_pie, mbind, M_bind, load, lift.
  by rewrite Hdf, Hc.
Qed.

Lemma show_bar_run (h : Heap) source df feature chart :
  h !! source = Some df → bar_chart df feature = Ok chart →
  show_bar source feature h = (Ok chart, h).
Proof.
  intros Hdf Hc. unfold show_bar, mbind, M_bind, load, lift.
  by rewrite Hdf, Hc.
Qed.

Lemma pie_chart_counts name vc :
  name ≠ "count"%string → name ≠ "percent"%string →
  pie_chart (rename "count" "percent" (reset_index name vc)) name = Ok (shares_of vc).
Proof.
  intros Hne Hne'. unfold pie_chart.
  rewrite getitem_col_percent_keys by done. simpl.
  rewrite getitem_col_percent by done. simpl.
  by rewrite numbers_counts.
Qed.


(** ** Running the sections *)

Lemma bind_run {A B : Type} (m : M A) (f : A → M B) (h h' : Heap) (a : A) :
  m h = (Ok a, h') → (m ≫= f) h = f a h'.
Proof. unfold mbind, M_bind. by intros ->. Qed.

Lemma filter_data_rows df flag out :
  filter_data df flag = Ok out →
  columns out = columns df ∧ sublist (rows out) (rows df).
Proof.
  unfold filter_data, getitem_col.
  destruct (index_of "TARGET" (columns df)) as [i|]; [|done]. simpl.
  intros [= <-]. split; [done|]. simpl.
  rewrite select_fmap_fmap. apply List_filter_sublist.
Qed.

Lemma filter_data_wf df flag out :
  wf_frame df → filter_data df flag = Ok out → wf_frame out.
Proof.
  intros Hwf Hout. apply filter_data_rows in Hout as [Hcols Hsub].
  intros r Hr. rewrite Hcols. apply Hwf. by eapply elem_of_sublist.
Qed.

Lemma getitem_mask_column df i p :
  getitem_mask df (p <$> (cell i <$> rows df)) =
  mkDF (columns df) (List.filter (λ r, p (cell i r)) (rows df)).
Proof. unfold getitem_mask. by rewrite select_fmap_fmap. Qed.

Lemma getitem_col_at df name i :
  index_of name (columns df) = Some i → getitem_col df name = Ok (cell i <$> rows df).
Proof. unfold getitem_col. by intros ->. Qed.


Ltac finish_run :=
  unfold mret, M_ret; rewrite ?length_app; simpl; rewrite <- ?app_assoc; simpl;
  repeat f_equal; lia.


Lemma tab2_industries_run (h : Heap) data df flag T' g :
  h !! data = Some df → filter_data df flag = Ok T' → wf_frame T' →
  index_of "GEN_INDUSTRY" (columns T') = Some g →
  let kept := List.filter (λ r, value_ne_str "not_applicable" (cell g r)) (rows T') in
  let col := cell g <$> kept in
  let bucketed := bucket (top_values 10 col) other_industries col in
  tab2_industries data flag h =
  (Ok (S (S (length h)), shares_of (value_counts bucketed)),
   h ++ [T';
         setitem (mkDF (columns T') kept) "GEN_INDUSTRY" bucketed;
         rename "count" "percent"
           (reset_index "GEN_INDUSTRY" (value_counts bucketed))]).
Proof.
  intros Hdf HT' Hwf Hg kept col bucketed. unfold tab2_industries.
  rewrite (bind_run _ _ _ _ _ (call_filter_data_run _ _ _ _ _ Hdf HT')).
  rewrite (bind_run _ _ _ _ _
    (exclude_str_run _ _ _ _ "not_applicable" _ (lookup_snoc h T') (getitem_col_at _ _ _ Hg))).
  rewrite getitem_mask_column. fold kept.
  assert (Hcol : getitem_col (mkDF (columns T') kept) "GEN_INDUSTRY" = Ok col).
  { by apply getitem_col_at. }
  rewrite (bind_run _ _ _ _ _
    (bucket_top10_run _ _ _ _ "GEN_INDUSTRY" other_industries _
       (lookup_snoc (h ++ [T']) _) Hcol)).
  rewrite insert_snoc. fold bucketed.
  assert (Hb : getitem_col (setitem (mkDF (columns T') kept) "GEN_INDUSTRY" bucketed)
                 "GEN_INDUSTRY" = Ok bucketed).
  { apply setitem_same.
    - eapply wf_frame_sublist; [|apply List_filter_sublist]. by destruct T'.
    - unfold bucketed, col. by rewrite bucket_length, length_fmap. }
  rewrite (bind_run _ _ _ _ _
    (aggregate_percent_run _ _ _ _ _ (lookup_snoc (h ++ [T']) _) Hb)).
  erewrite (bind_run (show_pie _ _)); last first.
  { eapply show_pie_run; [apply lookup_snoc|]. by apply pie_chart_counts. }
  finish_run.
Qed.






(** ** Top-10 bucketing *)

Lemma List_filter_all {A : Type} (p : A → bool) (l : list A) :
  (∀ x, x ∈ l → p x = true) → List.filter p l = l.
Proof.
  induction l as [|x l IH]; intros Hp; [done|]. simpl.
  rewrite Hp by left. f_equal. apply IH. intros y Hy. apply Hp. by right.
Qed.

Lemma top_values_length n col : (length (top_values n col) ≤ n)%nat.
Proof. unfold top_values. rewrite length_fmap, length_take. lia. Qed.

Lemma top_values_NoDup n col : NoDup (top_values n col).
Proof.
  unfold top_values. rewrite fmap_take.
  eapply sublist_NoDup; [apply value_counts_NoDup|apply sublist_take].
Qed.

Lemma top_values_elem n col x : x ∈ top_values n col → x ∈ col ∧ x ≠ VNaN.
Proof.
  unfold top_values. rewrite fmap_take. intros Hx.
  apply value_counts_keys. eapply elem_of_sublist; [done|apply sublist_take].
Qed.

Lemma bucket_elem top other col x :
  x ∈ bucket top other col → x ∈ top ∨ x = VStr other.
Proof.
  unfold bucket. intros (y & -> & Hy)%list_elem_of_fmap.
  destruct (bool_decide (y ∈ top)) eqn:Htop; [|by right].
  left. by apply bool_decide_eq_true in Htop.
Qed.

Lemma bucket_top_elem top other col x :
  x ∈ top → x ∈ col → x ∈ bucket top other col.
Proof.
  intros Htop Hcol. unfold bucket. apply list_elem_of_fmap.
  exists x. split; [|done]. by rewrite bool_decide_eq_true_2.
Qed.

Lemma bucket_cons top other x col :
  bucket top other (x :: col) =
  (if bool_decide (x ∈ top) then x else VStr other) :: bucket top other col.
Proof. done. Qed.

Lemma value_counts_bucket_length top other col :
  (length (value_counts (bucket top other col)) ≤ S (length top))%nat.
Proof.
  rewrite <- (length_fmap fst).
  change (S (length top)) with (length (VStr other :: top)).
  apply submseteq_length, NoDup_submseteq; [apply value_counts_NoDup|].
  intros x [Hx _]%value_counts_keys.
  apply bucket_elem in Hx as [Hx| ->]; [by right|by left].
Qed.

Lemma occurrences_bucket_top x top other col :
  x ∈ top → x ≠ VStr other →
  occurrences x (bucket top other col) = occurrences x col.
Proof.
  intros Htop Hne. induction col as [|y col IH]; [done|].
  rewrite bucket_cons, !occurrences_cons, IH. f_equal.
  destruct (bool_decide (y ∈ top)) eqn:Hy; [done|].
  apply bool_decide_eq_false in Hy.
  rewrite decide_False by congruence. rewrite decide_False; [done|].
  intros ->. done.
Qed.

(** The rows whose value is one of [ts], counted value by value. *)
Lemma length_filter_elem_of (ts col : list Value) :
  NoDup ts →
  length (List.filter (λ y, bool_decide (y ∈ ts)) col) =
  sum_list_with (λ t, occurrences t col) ts.
Proof.
  intros Hnd. induction col as [|y col IH]; simpl.
  - induction ts as [|t ts IHts]; simpl; [done|].
    apply NoDup_cons in Hnd as [_ Hnd]. by rewrite <- IHts.
  - assert (Hsum : sum_list_with (λ t, occurrences t (y :: col)) ts =
            ((if bool_decide (y ∈ ts) then 1 else 0) +
             sum_list_with (λ t, occurrences t col) ts)%nat).
    { clear IH. induction ts as [|t ts IHts]; simpl; [done|].
      apply NoDup_cons in Hnd as [Ht Hnd].
      rewrite IHts by done. rewrite occurrences_cons.
      destruct (decide (y = t)) as [->|Hne].
      - rewrite (bool_decide_eq_true_2 (t ∈ t :: ts)) by left.
        rewrite (bool_decide_eq_false_2 (t ∈ ts)) by done. lia.
      - destruct (bool_decide (y ∈ ts)) eqn:Hy.
        + apply bool_decide_eq_true in Hy.
          rewrite (bool_decide_eq_true_2 (y ∈ t :: ts)) by (by right). lia.
        + apply bool_decide_eq_false in Hy.
          rewrite (bool_decide_eq_false_2 (y ∈ t :: ts)); [lia|].
          apply not_elem_of_cons. done. }
    rewrite Hsum, <- IH. by destruct (bool_decide (y ∈ ts)).
Qed.

(** The rows the other bucket takes and the rows the listed values keep
    are all rows. *)
Lemma bucket_other_count top other col :
  NoDup top →
  (occurrences (VStr other) (bucket top other col) +
   sum_list_with (λ t, occurrences t col)
     (List.filter (λ t, bool_decide (t ≠ VStr other)) top) =
   length col)%nat.
Proof.
  intros Hnd.
  rewrite <- length_filter_elem_of.
  2:{ eapply sublist_NoDup; [done|apply List_filter_sublist]. }
  induction col as [|y col IH]; [done|].
  rewrite bucket_cons, occurrences_cons. simpl.
  assert (Hy : bool_decide (y ∈ List.filter (λ t, bool_decide (t ≠ VStr other)) top) =
               bool_decide (y ∈ top) && bool_decide (y ≠ VStr other)).
  { rewrite <- bool_decide_and. apply bool_decide_ext.
    by rewrite list_elem_of_In, filter_In, <- list_elem_of_In, bool_decide_eq_true. }
  rewrite Hy. destruct (bool_decide (y ∈ top)) eqn:Htop; simpl.
  - destruct (decide (y = VStr other)) as [->|Hne].
    + rewrite bool_decide_eq_false_2 by (intros H; by apply H). lia.
    + rewrite bool_decide_eq_true_2 by done. simpl. lia.
  - rewrite decide_True by done. lia.
Qed.

Lemma sum_occurrences_counts col (l : list (Value * nat)) :
  (∀ v c, (v, c) ∈ l → c = occurrences v col) →
  sum_list_with (λ t, occurrences t col) l.*1 = sum_list_with snd l.
Proof.
  induction l as [|[v c] l IH]; intros Hl; csimpl; [done|].
  rewrite IH by (intros v' c' H'; apply Hl; by right).
  by rewrite <- (Hl v c) by left.
Qed.

Lemma List_filter_fst {A B : Type} (p : A → bool) (l : list (A * B)) :
  List.filter p l.*1 = (List.filter (λ e, p e.1) l).*1.
Proof.
  induction l as [|[a b] l IH]; csimpl; [done|].
  destruct (p a); csimpl; by rewrite IH.
Qed.

Lemma take_value_counts_elem n v c col :
  (v, c) ∈ take n (value_counts col) → v ≠ VNaN ∧ v ∈ col ∧ c = occurrences v col.
Proof.
  intros Hin. apply value_counts_elem.
  eapply elem_of_sublist; [done|apply sublist_take].
Qed.

Lemma bucket_notna top other col :
  (∀ x, x ∈ top → x ≠ VNaN) → List.filter notna (bucket top other col) = bucket top other col.
Proof.
  intros Htop. apply length_List_filter_notna.
  intros x [Hx| ->]%bucket_elem; [by apply Htop|done].
Qed.

(** What aggregation after top-[n] bucketing returns: at most [n + 1]
    counters that add up to the number of rows; a counter of a value that is
    not the other label is the counter this value had among the [n] largest,
    and those all stay; the counter of the other label holds the rows that
    are left. *)
Lemma value_counts_bucket n other col :
  let top := take n (value_counts col) in
  let out := value_counts (bucket (top_values n col) other col) in
  (length out ≤ S n)%nat ∧
  sum_list_with snd out = length col ∧
  (∀ v c, v ≠ VStr other → (v, c) ∈ out ↔ (v, c) ∈ top) ∧
  (count_in (VStr other) out +
   sum_list_with snd (List.filter (λ e, bool_decide (e.1 ≠ VStr other)) top) =
   length col)%nat ∧
  (VStr other ∉ top.*1 →
   (count_in (VStr other) out + sum_list_with snd top = length col)%nat).
Proof.
  intros top out.
  assert (Htop : top.*1 = top_values n col) by done.
  assert (Hcount : (count_in (VStr other) out +
     sum_list_with snd (List.filter (λ e, bool_decide (e.1 ≠ VStr other)) top) =
     length col)%nat).
  { unfold out. rewrite value_counts_count_in by done.
    rewrite <- (bucket_other_count (top_values n col) other col)
      by apply top_values_NoDup.
    f_equal. rewrite <- Htop, List_filter_fst.
    symmetry. apply sum_occurrences_counts. intros v c Hin.
    apply list_elem_of_In, filter_In in Hin as [Hin _].
    apply list_elem_of_In in Hin.
    by apply take_value_counts_elem in Hin as (_ & _ & ->). }
  split; [|split; [|split; [|split]]].
  - etrans; [apply value_counts_bucket_length|].
    pose proof (top_values_length n col). lia.
  - unfold out. rewrite value_counts_sum, bucket_notna, bucket_length; [done|].
    intros x Hx. by apply top_values_elem in Hx as [_ Hx].
  - intros v c Hne. split.
    + intros Hin. pose proof Hin as (Hna & Hb & ->)%value_counts_elem.
      apply bucket_elem in Hb as [Hb|Hb]; [|done].
      rewrite occurrences_bucket_top by done.
      rewrite <- Htop in Hb. apply list_elem_of_fmap in Hb as ([v' c'] & -> & Hin').
      simpl. by pose proof Hin' as (_ & _ & ->)%take_value_counts_elem.
    + intros Hin. pose proof Hin as (Hna & Hcol & ->)%take_value_counts_elem.
      assert (Hv : v ∈ top_values n col).
      { rewrite <- Htop. apply list_elem_of_fmap. by exists (v, occurrences v col). }
      assert (Hk : v ∈ out.*1).
      { apply value_counts_keys. split; [|done]. by apply bucket_top_elem. }
      apply list_elem_of_fmap in Hk as ([v' c'] & -> & Hin').
      simpl in *. pose proof Hin' as (_ & _ & ->)%value_counts_elem.
      by rewrite occurrences_bucket_top in Hin'.
  - done.
  - intros Hother. rewrite <- Hcount. do 2 f_equal.
    symmetry. apply List_filter_all. intros [v c] Hin.
    apply bool_decide_eq_true. intros Hv. simpl in Hv. subst v.
    apply Hother. apply list_elem_of_fmap. by exists (VStr other, c).
Qed.

(** ** Shares *)






(** ** Which tables a stage touches *)

Lemma hoare_bind {A B : Type} (pre : Heap → Prop) (m : M A) (f : A → M B)
    (mid : A → Heap → Prop) (post : B → Heap → Prop) (exc : Heap → Prop) :
  hoare pre m mid exc → (∀ a, hoare (mid a) (f a) post exc) →
  hoare pre (m ≫= f) post exc.
Proof.
  intros Hm Hf h Hpre. specialize (Hm h Hpre).
  unfold mbind, M_bind. destruct (m h) as [[a|e] h']; [|done].
  by apply Hf.
Qed.

Lemma hoare_ret {A : Type} (P : Heap → Prop) (a : A) :
  hoare P (mret a) (λ _, P) P.
Proof. by intros h Hh. Qed.

Lemma hoare_load (P : Heap → Prop) (l : loc) :
  hoare P (load l) (λ _, P) P.
Proof. intros h Hh. unfold load. by destruct (h !! l). Qed.

Lemma hoare_lift {A : Type} (P : Heap → Prop) (r : Result A) :
  hoare P (lift r) (λ _, P) P.
Proof. intros h Hh. unfold lift. by destruct r. Qed.

(** Allocation extends the heap: what was there stays, the new location is
    beyond it. *)
Lemma hoare_alloc (h0 : Heap) (df : DataFrame) :
  hoare (λ h, h0 `prefix_of` h) (alloc df)
        (λ l h, h0 `prefix_of` h ∧ (length h0 ≤ l)%nat) (λ h, h0 `prefix_of` h).
Proof.
  intros h Hh. unfold alloc. split; [by apply prefix_app_r|].
  by apply prefix_length.
Qed.

(** A store beyond [h0] leaves [h0] alone. *)
Lemma hoare_store (h0 : Heap) (l : loc) (df : DataFrame) :
  (length h0 ≤ l)%nat →
  hoare (λ h, h0 `prefix_of` h) (store l df)
        (λ _ h, h0 `prefix_of` h) (λ h, h0 `prefix_of` h).
Proof.
  intros Hl h [k ->]. unfold store.
  rewrite insert_app_r_alt by done. by apply prefix_app_r.
Qed.

Section stages.
Variable h0 : Heap.

Local Abbreviation kept := (λ h : Heap, h0 `prefix_of` h).
Local Abbreviation fresh := (λ (l : loc) (h : Heap), h0 `prefix_of` h ∧ (length h0 ≤ l)%nat).

Lemma call_filter_data_keeps data flag :
  hoare kept (call_filter_data data flag) fresh kept.
Proof.
  unfold call_filter_data.
  eapply hoare_bind; [apply hoare_load|]. intros df.
  eapply hoare_bind; [apply hoare_lift|]. intros out.
  apply hoare_alloc.
Qed.

Lemma exclude_str_keeps source col sentinel :
  hoare kept (exclude_str source col sentinel) fresh kept.
Proof.
  unfold exclude_str.
  eapply hoare_bind; [apply hoare_load|]. intros df.
  eapply hoare_bind; [apply hoare_lift|]. intros c.
  apply hoare_alloc.
Qed.

Lemma aggregate_keeps source col :
  hoare kept (aggregate source col) fresh kept.
Proof.
  unfold aggregate.
  eapply hoare_bind; [apply hoare_load|]. intros df.
  eapply hoare_bind; [apply hoare_lift|]. intros c.
  apply hoare_alloc.
Qed.

Lemma aggregate_percent_keeps source col :
  hoare kept (aggregate_percent source col) fresh kept.
Proof.
  unfold aggregate_percent.
  eapply hoare_bind; [apply hoare_load|]. intros df.
  eapply hoare_bind; [apply hoare_lift|]. intros c.
  apply hoare_alloc.
Qed.

Lemma keep_positive_keeps source col :
  hoare kept (keep_positive source col) fresh kept.
Proof.
  unfold keep_positive.
  eapply hoare_bind; [apply hoare_load|]. intros df.
  eapply hoare_bind; [apply hoare_lift|]. intros c.
  eapply hoare_bind; [apply hoare_lift|]. intros mask.
  apply hoare_alloc.
Qed.

Lemma bucket_top10_keeps source src dst other :
  (length h0 ≤ source)%nat →
  hoare kept (bucket_top10 source src dst other) (λ _, kept) kept.
Proof.
  intros Hl. unfold bucket_top10.
  eapply hoare_bind; [apply hoare_load|]. intros df.
  eapply hoare_bind; [apply hoare_lift|]. intros c.
  by apply hoare_store.
Qed.

Lemma show_pie_keeps source feature :
  hoare kept (show_pie source feature) (λ _, kept) kept.
Proof.
  unfold show_pie.
  eapply hoare_bind; [apply hoare_load|]. intros df. apply hoare_lift.
Qed.

Lemma show_bar_keeps source feature :
  hoare kept (show_bar source feature) (λ _, kept) kept.
Proof.
  unfold show_bar.
  eapply hoare_bind; [apply hoare_load|]. intros df. apply hoare_lift.
Qed.

Lemma hoare_fresh {A : Type} (l : loc) (m : M A) (post : A → Heap → Prop) :
  ((length h0 ≤ l)%nat → hoare kept m post kept) →
  hoare (fresh l) m post kept.
Proof. intros Hm h [Hh Hl]. by apply Hm. Qed.

Lemma tab1_education_keeps data flag :
  hoare kept (tab1_education data flag) (λ _, kept) kept.
Proof.
  unfold tab1_education.
  eapply hoare_bind; [apply call_filter_data_keeps|]. intros source.
  apply hoare_fresh. intros _.
  eapply hoare_bind; [apply aggregate_percent_keeps|]. intros source'.
  apply hoare_fresh. intros _.
  eapply hoare_bind; [apply show_pie_keeps|]. intros chart.
  apply hoare_ret.
Qed.

Lemma tab2_industries_keeps data flag :
  hoare kept (tab2_industries data flag) (λ _, kept) kept.
Proof.
  unfold tab2_industries.
  eapply hoare_bind; [apply call_filter_data_keeps|]. intros source.
  apply hoare_fresh. intros _.
  eapply hoare_bind; [apply exclude_str_keeps|]. intros source'.
  apply hoare_fresh. intros Hl.
  eapply hoare_bind; [by apply bucket_top10_keeps|]. intros [].
  eapply hoare_bind; [apply aggregate_percent_keeps|]. intros source''.
  apply hoare_fresh. intros _.
  eapply hoare_bind; [apply show_pie_keeps|]. intros chart.
  apply hoare_ret.
Qed.

Lemma tab2_titles_keeps data flag :
  hoare kept (tab2_titles data flag) (λ _, kept) kept.
Proof.
  unfold tab2_titles.
  eapply hoare_bind; [apply call_filter_data_keeps|]. intros source.
  apply hoare_fresh. intros _.
  eapply hoare_bind; [apply exclude_str_keeps|]. intros source'.
  apply hoare_fresh. intros Hl.
  eapply hoare_bind; [by apply bucket_top10_keeps|]. intros [].
  eapply hoare_bind; [apply aggregate_percent_keeps|]. intros source''.
  apply hoare_fresh. intros _.
  eapply hoare_bind; [apply show_pie_keeps|]. intros chart.
  apply hoare_ret.
Qed.

Lemma tab2_work_time_keeps data flag :
  hoare kept (tab2_work_time data flag) (λ _, kept) kept.
Proof.
  unfold tab2_work_time.
  eapply hoare_bind; [apply call_filter_data_keeps|]. intros source.
  apply hoare_fresh. intros _.
  eapply hoare_bind; [apply aggregate_keeps|]. intros source'.
  apply hoare_fresh. intros _.
  eapply hoare_bind; [apply keep_positive_keeps|]. intros source''.
  apply hoare_fresh. intros _.
  eapply hoare_bind; [apply show_bar_keeps|]. intros chart.
  apply hoare_ret.
Qed.
End stages.

Lemma hoare_run {A : Type} (m : M A) (h : Heap) :
  hoare (λ h', h `prefix_of` h') m (λ _ h', h `prefix_of` h') (λ h', h `prefix_of` h') →
  h `prefix_of` (m h).2.
Proof.
  intros Hm. specialize (Hm h (reflexivity h)).
  by destruct (m h) as [[a|e] h'].
Qed.

(** A stage that only allocates leaves the table it reads unchanged. *)
Lemma prefix_leaves_input {A : Type} (stage : loc → M A) :
  (∀ h l, h `prefix_of` (stage l h).2) → leaves_input_unchanged stage.
Proof.
  intros Hs h l df Hl. destruct (Hs h l) as [k ->].
  by apply lookup_app_l_Some.
Qed.

Lemma call_phik_data_heap phik_matrix data (h : Heap) :
  (call_phik_data phik_matrix data h).2 = h.
Proof.
  unfold call_phik_data, mbind, M_bind, load, lift.
  by destruct (h !! data).
Qed.

(** Bucketing changes at most the content of the location it is given. *)
Lemma bucket_top10_heap source src dst other (h : Heap) :
  ∃ df, (bucket_top10 source src dst other h).2 = <[source:=df]> h.
Proof.
  unfold bucket_top10, mbind, M_bind, load, lift, store.
  destruct (h !! source) as [df|] eqn:Hl.
  - destruct (getitem_col df src) as [c|e]; simpl; [by eexists|].
    exists df. by rewrite list_insert_id.
  - exists (mkDF [] []). simpl. rewrite list_insert_ge; [done|].
    by apply lookup_ge_None.
Qed.

(** ** The long correlation table *)

Lemma round_half_even_nearest q :
  (Qabs (q - inject_Z (round_half_even q)) <= 1 # 2)%Q.
Proof.
  unfold round_half_even.
  pose proof (Qfloor_le q) as Hlo. pose proof (Qlt_floor q) as Hhi.
  rewrite inject_Z_plus in Hhi. change (inject_Z 1) with 1%Q in Hhi.
  apply Qabs_Qle_condition.
  destruct (Qcompare_spec (q - inject_Z (Qfloor q)) (1 # 2)) as [Heq|Hlt|Hgt].
  - destruct (Z.even (Qfloor q)); rewrite ?inject_Z_plus;
      change (inject_Z 1) with 1%Q; split; lra.
  - split; lra.
  - rewrite inject_Z_plus. change (inject_Z 1) with 1%Q. split; lra.
Qed.


Lemma positions_all names cols :
  (∀ f, f ∈ names → f ∈ cols) → ∃ ps, positions names cols = Ok ps.
Proof.
  induction names as [|n names IH]; intros Hall; simpl; [by eexists|].
  destruct (index_of_Some n cols) as [i ->]; [apply Hall; by left|].
  destruct IH as [ps ->]; [intros f Hf; apply Hall; by right|].
  by eexists.
Qed.

Lemma getitem_cols_all df names :
  (∀ f, f ∈ names → f ∈ columns df) →
  ∃ sel, getitem_cols df names = Ok sel ∧ columns sel = names.
Proof.
  intros Hall. unfold getitem_cols.
  destruct (positions_all _ _ Hall) as [ps ->]. by eexists.
Qed.

Lemma stack_elem m a b q :
  (a, b, q) ∈ stack m ↔ a ∈ m_index m ∧ b ∈ m_columns m ∧ m_at m a b = Some q.
Proof.
  unfold stack. rewrite list_elem_of_bind. split.
  - intros (a' & Hin & Ha'). apply list_elem_of_bind in Hin as (b' & Hin & Hb').
    destruct (m_at m a' b') as [q'|] eqn:Hq; [|by apply elem_of_nil in Hin].
    apply list_elem_of_singleton in Hin. by simplify_eq.
  - intros (Ha & Hb & Hq). exists a. split; [|done].
    apply list_elem_of_bind. exists b. split; [|done].
    rewrite Hq. by apply list_elem_of_singleton.
Qed.




Lemma phik_data_run phik_matrix df :
  (∀ f, f ∈ fields → f ∈ columns df) →
  ∃ sel, columns sel = fields ∧
    phik_data phik_matrix df =
    Ok ((λ '(a, b, q), mkCorrRow a b q (format_1f q)) <$>
          stack (phik_matrix sel interval_cols 20%nat)).
Proof.
  intros Hall. destruct (getitem_cols_all df fields Hall) as (sel & Hsel & Hcols).
  exists sel. split; [done|]. unfold phik_data. by rewrite Hsel.
Qed.

Lemma elem_of_long (m : CorrMatrix) r :
  r ∈ (λ '(a, b, q), mkCorrRow a b q (format_1f q)) <$> stack m ↔
  ∃ a b q, r = mkCorrRow a b q (format_1f q) ∧
           a ∈ m_index m ∧ b ∈ m_columns m ∧ m_at m a b = Some q.
Proof.
  rewrite list_elem_of_fmap. split.
  - intros ([[a b] q] & -> & Hin). exists a, b, q. split; [done|].
    by apply stack_elem.
  - intros (a & b & q & -> & Hin). exists (a, b, q). split; [done|].
    by apply stack_elem.
Qed.

Section association.
Variable discretize : nat → list Value → list Value.
Variable pair_score : list Value → list Value → Q.


Lemma association_matrix_total sel ic bins a b :
  a ∈ columns sel → b ∈ columns sel →
  is_Some (m_at (association_matrix discretize pair_score sel ic bins) a b).
Proof.
  intros [i Hi]%index_of_Some [j Hj]%index_of_Some. simpl.
  rewrite Hi, Hj. by eexists.
Qed.

Lemma association_matrix_symmetric sel ic bins a b :
  m_at (association_matrix discretize pair_score sel ic bins) a b =
  m_at (association_matrix discretize pair_score sel ic bins) b a.
Proof.
  simpl. destruct (index_of a (columns sel)) as [i|] eqn:Hi,
                  (index_of b (columns sel)) as [j|] eqn:Hj; try done.
  f_equal. destruct (decide (i = j)) as [->|Hne].
  - by rewrite decide_True.
  - rewrite (decide_False (P := j = i)) by done.
    destruct (decide (i < j)%nat), (decide (j < i)%nat); try done; lia.
Qed.

Hypothesis pair_score_range : ∀ x y, (0 <= pair_score x y <= 1)%Q.

(** C4. With the scores of the pairs of fields as the specification
    describes them, the long table [phik_data] returns for a table with the
    declared fields is symmetric, every score is between 0 and 1, and a field
    paired with itself scores 1: every row has the row of the swapped pair
    next to it in the table, with the same score and label. *)
Theorem association_symmetric_bounded (df : DataFrame) :
  (∀ f, f ∈ fields → f ∈ columns df) →
  ∃ long,
    phik_data (association_matrix discretize pair_score) df = Ok long ∧
    (∀ a b, a ∈ fields → b ∈ fields →
       ∃ r, r ∈ long ∧ variable r = a ∧ variable2 r = b) ∧
    ∀ r, r ∈ long →
      (0 <= correlation r <= 1)%Q ∧
      (variable r = variable2 r → correlation r = 1%Q) ∧
      mkCorrRow (variable2 r) (variable r) (correlation r) (correlation_label r)
        ∈ long.
Proof.
  intros Hall.
  destruct (phik_data_run (association_matrix discretize pair_score) df Hall)
    as (sel & Hcols & ->).
  set (m := association_matrix discretize pair_score sel interval_cols 20%nat).
  eexists. split; [done|]. split.
  - intros a b Ha Hb.
    destruct (association_matrix_total sel interval_cols 20%nat a b) as [q Hq];
      [rewrite Hcols; exact Ha|rewrite Hcols; exact Hb|].
    exists (mkCorrRow a b q (format_1f q)). split; [|done].
    apply elem_of_long. exists a, b, q.
    split; [done|]. split; [simpl; by rewrite Hcols|].
    split; [simpl; by rewrite Hcols|]. exact Hq.
  - intros r (a & b & q & -> & Ha & Hb & Hq)%elem_of_long.
    cbn [variable variable2 correlation correlation_label].
    split; [|split].
    + simpl in Hq.
      destruct (index_of a (columns sel)) as [i|], (index_of b (columns sel)) as [j|];
        try done.
      injection Hq as <-.
      destruct (decide (i = j)); [done|].
      destruct (decide (i < j)%nat); apply pair_score_range.
    + intros <-. simpl in Hq.
      destruct (index_of a (columns sel)) as [i|]; [|done].
      rewrite decide_True in Hq by done. by injection Hq.
    + apply elem_of_long. exists b, a, q. split; [done|].
      split; [done|]. split; [done|].
      unfold m. by rewrite association_matrix_symmetric.
Qed.
End association.

Section phik.
Variable phik_matrix : DataFrame → list string → nat → CorrMatrix.

(** The contract of the [phik] package, as the specification states it: a
    score for every pair of the fields of the frame it is given, the same
    for a pair and the swapped pair. *)
Hypothesis phik_labels : ∀ sel ic bins,
  m_index (phik_matrix sel ic bins) = columns sel ∧
  m_columns (phik_matrix sel ic bins) = columns sel.
Hypothesis phik_total : ∀ sel ic bins a b,
  a ∈ columns sel → b ∈ columns sel →
  is_Some (m_at (phik_matrix sel ic bins) a b).
Hypothesis phik_symmetric : ∀ sel ic bins a b,
  m_at (phik_matrix sel ic bins) a b = m_at (phik_matrix sel ic bins) b a.

End phik.

(** ** [load_data] *)

Lemma load_data_any_path fs p q : load_data fs p = load_data fs q.
Proof. done. Qed.

(** A second call with the same path returns the table of the first call,
    whatever has become of the files. *)
Lemma load_data_cached_again fs fs' cache cache' p t :
  load_data_cached fs cache p = (Ok t, cache') →
  load_data_cached fs' cache' p = (Ok t, cache').
Proof.
  unfold load_data_cached, cache_data.
  destruct (cache_lookup p cache) as [v|] eqn:Hc.
  - intros [= <- <-]. by rewrite Hc.
  - destruct (load_data fs p) as [v|e]; [|done].
    intros [= <- <-]. simpl. by rewrite decide_True.
Qed.

(** C3. [load_data] reads [DATA_PATH] whatever path it is given: asked for
    [datasets/other.csv] on a file system where that file holds another
    table than [datasets/data_full.csv], it returns the table of
    [datasets/data_full.csv]. *)
Theorem load_data_ignores_path :
  read_csv fs2 "datasets/other.csv" = Ok T_other ∧
  read_csv fs2 DATA_PATH = Ok T4 ∧
  T_other ≠ T4 ∧
  load_data fs2 "datasets/other.csv" = Ok T4 ∧
  (load_data_cached fs2 [] "datasets/other.csv").1 = Ok T4.
Proof. repeat split; done. Qed.

(** ** The job columns *)

(** C2. On a table with twelve job titles, ten occurring twice and two once,
    the job-titles section hands twelve counters to its chart, none of them
    for the other label: the bucketed titles went to the [GEN_INDUSTRY] column
    of the working table and the [GEN_TITLE] column was counted as it was. On
    the same table the industries section hands over eleven counters, one of
    them the other label with the two industries outside the ten. The
    counters are given up to their order. *)
Theorem tab2_titles_not_bucketed :
  (∃ chart h agg working,
     tab2_titles 0%nat 1 [T_jobs] = (Ok (3%nat, chart), h) ∧
     (h !! 3%nat) = Some agg ∧ (h !! 2%nat) = Some working ∧
     columns agg = ["GEN_TITLE"; "percent"]%string ∧
     cells <$> rows agg ≡ₚ
       count_cells [ (VStr "t01", 2); (VStr "t02", 2); (VStr "t03", 2);
                     (VStr "t04", 2); (VStr "t05", 2); (VStr "t06", 2);
                     (VStr "t07", 2); (VStr "t08", 2); (VStr "t09", 2);
                     (VStr "t10", 2); (VStr "t11", 1); (VStr "t12", 1) ]%nat ∧
     length (rows agg) = 12%nat ∧
     (VStr other_titles ∉ cell 0 <$> rows agg) ∧
     drop 20 (cell 1 <$> rows working) = [VStr other_titles; VStr other_titles]) ∧
  (∃ chart h agg,
     tab2_industries 0%nat 1 [T_jobs] = (Ok (3%nat, chart), h) ∧
     (h !! 3%nat) = Some agg ∧
     cells <$> rows agg ≡ₚ
       count_cells [ (VStr "i01", 2); (VStr "i02", 2); (VStr "i03", 2);
                     (VStr "i04", 2); (VStr "i05", 2); (VStr "i06", 2);
                     (VStr "i07", 2); (VStr "i08", 2); (VStr "i09", 2);
                     (VStr "i10", 2); (VStr other_industries, 2) ]%nat).
Proof.
  split.
  - do 4 eexists. split; [vm_compute; reflexivity|].
    do 5 (split; [vm_compute; reflexivity|]).
    split; [|vm_compute; reflexivity].
    apply (bool_decide_unpack _). by vm_compute.
  - do 3 eexists. split; [vm_compute; reflexivity|].
    split; vm_compute; reflexivity.
Qed.

(** ** Mutation *)

(** C5 as stated fails: top-10 bucketing overwrites the [GEN_INDUSTRY]
    column of the table it is given. In the industries section on [T_jobs],
    the working table that the exclusion of the sentinel has made is another
    table after bucketing. *)
Lemma bucket_top10_overwrites_input :
  (∃ h working,
     (source ← call_filter_data 0%nat 1;
      exclude_str source "GEN_INDUSTRY" "not_applicable") [T_jobs] =
       (Ok 2%nat, h) ∧
     h !! 2%nat = Some working ∧
     (bucket_top10 2%nat "GEN_INDUSTRY" "GEN_INDUSTRY" other_industries h).2
       !! 2%nat ≠ Some working) ∧
  ¬ leaves_input_unchanged
      (λ source, bucket_top10 source "GEN_INDUSTRY" "GEN_INDUSTRY" other_industries).
Proof.
  split.
  - do 2 eexists. split; [vm_compute; reflexivity|].
    split; [reflexivity|]. vm_compute. discriminate.
  - intros Hstage. specialize (Hstage [T_jobs] 0%nat T_jobs eq_refl).
    vm_compute in Hstage. discriminate.
Qed.

Lemma hoare_forget (h0 : Heap) (m : M loc) :
  hoare (λ h, h0 `prefix_of` h) m
        (λ l h, h0 `prefix_of` h ∧ (length h0 ≤ l)%nat) (λ h, h0 `prefix_of` h) →
  hoare (λ h, h0 `prefix_of` h) m (λ _ h, h0 `prefix_of` h) (λ h, h0 `prefix_of` h).
Proof.
  intros Hm h Hh. specialize (Hm h Hh).
  destruct (m h) as [[a|e] h']; [by destruct Hm|done].
Qed.

(** C5, amended. Filtering, exclusion of the sentinel, aggregation, the
    charts and the correlation stage leave the table they read unchanged;
    bucketing changes at most the content of the table it is given; and
    after any section of the page every table that existed before it, the
    loaded one among them, is still in place with its content, whether the
    section ends or raises. *)
Theorem existing_tables_stay :
  (∀ flag, leaves_input_unchanged (λ data, call_filter_data data flag)) ∧
  (∀ col sentinel, leaves_input_unchanged (λ source, exclude_str source col sentinel)) ∧
  (∀ col, leaves_input_unchanged (λ source, aggregate source col)) ∧
  (∀ col, leaves_input_unchanged (λ source, aggregate_percent source col)) ∧
  (∀ col, leaves_input_unchanged (λ source, keep_positive source col)) ∧
  (∀ feature, leaves_input_unchanged (λ source, show_bar source feature)) ∧
  (∀ feature, leaves_input_unchanged (λ source, show_pie source feature)) ∧
  (∀ phik_matrix, leaves_input_unchanged (call_phik_data phik_matrix)) ∧
  (∀ source src dst other (h : Heap),
     ∃ df, (bucket_top10 source src dst other h).2 = <[source:=df]> h) ∧
  (∀ data flag (h : Heap),
     h `prefix_of` (tab1_education data flag h).2 ∧
     h `prefix_of` (tab2_industries data flag h).2 ∧
     h `prefix_of` (tab2_titles data flag h).2 ∧
     h `prefix_of` (tab2_work_time data flag h).2).
Proof.
  repeat split.
  - intros flag. apply prefix_leaves_input. intros h l.
    apply hoare_run, hoare_forget, call_filter_data_keeps.
  - intros col s. apply prefix_leaves_input. intros h l.
    apply hoare_run, hoare_forget, exclude_str_keeps.
  - intros col. apply prefix_leaves_input. intros h l.
    apply hoare_run, hoare_forget, aggregate_keeps.
  - intros col. apply prefix_leaves_input. intros h l.
    apply hoare_run, hoare_forget, aggregate_percent_keeps.
  - intros col. apply prefix_leaves_input. intros h l.
    apply hoare_run, hoare_forget, keep_positive_keeps.
  - intros feature. apply prefix_leaves_input. intros h l.
    apply hoare_run, show_bar_keeps.
  - intros feature. apply prefix_leaves_input. intros h l.
    apply hoare_run, show_pie_keeps.
  - intros phik_matrix h l df Hl. by rewrite call_phik_data_heap.
  - intros. apply bucket_top10_heap.
  - apply hoare_run, tab1_education_keeps.
  - apply hoare_run, tab2_industries_keeps.
  - apply hoare_run, tab2_titles_keeps.
  - apply hoare_run, tab2_work_time_keeps.
Qed.

(** ** Exclusion of clients who do not work *)




Lemma lookup_snoc3 {A : Type} (h : list A) (a b c : A) :
  (h ++ [a; b; c]) !! S (S (length h)) = Some c.
Proof. induction h as [|x h IH]; simpl; done. Qed.






(** ** Shares of the charts *)



(** ** The long correlation table, on an example *)

Lemma association_symmetric_bounded_witness :
  ∃ long,
    phik_data (association_matrix (λ _ c, c) (λ _ _, (1 # 2)%Q)) T19 = Ok long ∧
    long !! 1%nat = Some (mkCorrRow "TARGET" "AGE" (1 # 2) "0.5") ∧
    long !! 19%nat = Some (mkCorrRow "AGE" "TARGET" (1 # 2) "0.5") ∧
    long !! 20%nat = Some (mkCorrRow "AGE" "AGE" 1 "1.0").
Proof.
  assert (Hrange : ∀ x y : list Value, (0 <= 1 # 2 <= 1)%Q).
  { intros _ _. split; unfold Qle; simpl; lia. }
  destruct (association_symmetric_bounded (λ _ c, c) (λ _ _, (1 # 2)%Q) Hrange T19)
    as (long & Hlong & _); [done|].
  exists long. split; [done|].
  vm_compute in Hlong. injection Hlong as <-.
  repeat split.
Defined.


(** ** The industries section does bucket *)

(** What the industries section hands to its chart: at most eleven counters
    over the working rows; the counters of the ten most frequent industries
    as they were, the other label put aside; and a counter of the other
    label for the rows that are left. *)
Lemma tab2_industries_top10
    (h : Heap) (data : loc) (df T : DataFrame) (flag : Z) (g : nat) :
  h !! data = Some df → wf_frame df → filter_data df flag = Ok T →
  index_of "GEN_INDUSTRY" (columns T) = Some g →
  let working := List.filter (λ r, value_ne_str "not_applicable" (cell g r)) (rows T) in
  let top := take 10 (value_counts (cell g <$> working)) in
  ∃ chart h' agg out,
    tab2_industries data flag h = (Ok (S (S (length h)), chart), h') ∧
    h' !! S (S (length h)) = Some agg ∧
    cells <$> rows agg = count_cells out ∧
    (length (rows agg) ≤ 11)%nat ∧
    sum_list_with snd out = length working ∧
    (∀ v c, v ≠ VStr other_industries → (v, c) ∈ out ↔ (v, c) ∈ top) ∧
    (VStr other_industries ∉ top.*1 →
     (count_in (VStr other_industries) out + sum_list_with snd top =
      length working)%nat).
Proof.
  intros Hdf Hwf HT Hg working top.
  pose proof (filter_data_wf _ _ _ Hwf HT) as HwfT.
  pose proof (value_counts_bucket 10 other_industries (cell g <$> working))
    as (Hlen & Hsum & Htop & _ & Hother).
  rewrite length_fmap in Hsum, Hother.
  eexists _, _, _, _.
  split; [by apply (tab2_industries_run h data df flag T g)|].
  split; [apply lookup_snoc3|].
  split; [simpl; by rewrite count_rows_cells|].
  split; [|done].
  simpl. rewrite <- (length_fmap cells), count_rows_cells.
  unfold count_cells. by rewrite length_fmap.
Qed.

(** ** Session state *)

Lemma flag_key_inj s s' : flag_key s = flag_key s' → s = s'.
Proof. unfold flag_key. intros Heq. cbn in Heq. by simplify_eq. Qed.

Lemma init_flag_lookup key st k :
  init_flag key st !! k =
  if decide (k = key) then Some (default false (st !! key)) else st !! k.
Proof.
  unfold init_flag. destruct (decide (k = key)) as [->|Hne].
  - destruct (st !! key) as [b|] eqn:Hb; simpl; [done|].
    by rewrite lookup_insert_eq.
  - destruct (st !! key); [done|]. by rewrite lookup_insert_ne.
Qed.

Lemma init_flag_subseteq key st : st ⊆ init_flag key st.
Proof.
  unfold init_flag. destruct (st !! key) eqn:Hk; [done|].
  by apply insert_subseteq.
Qed.

Lemma init_flag_present key st : is_Some (st !! key) → init_flag key st = st.
Proof. unfold init_flag. by intros [b ->]. Qed.

(** Flipping a flag twice gives the state back. *)
Theorem from_callback_twice (suffix : string) (st : gmap string bool) :
  is_Some (st !! flag_key suffix) →
  ∃ st', from_callback suffix st = Ok st' ∧ from_callback suffix st' = Ok st.
Proof.
  intros [b Hb]. unfold from_callback. rewrite Hb.
  eexists. split; [done|].
  rewrite lookup_insert_eq, insert_insert_eq, negb_involutive.
  by rewrite insert_id.
Qed.

Lemma from_callback_twice_witness :
  ∃ st', from_callback "DEMO" {["TARGET_DEMO"%string := false]} = Ok st' ∧
         from_callback "DEMO" st' = Ok {["TARGET_DEMO"%string := false]}.
Proof.
  apply (from_callback_twice "DEMO" {["TARGET_DEMO"%string := false]}).
  exists false. apply lookup_singleton_eq.
Defined.

(** [from_callback] touches one entry: it negates the flag of its suffix
    and leaves every other entry, the flags of the other tabs among them, as
    it was; without the flag it raises [KeyError]. *)
Theorem from_callback_frame (suffix : string) (st : gmap string bool) :
  match from_callback suffix st with
  | Ok st' =>
      ∃ b, st !! flag_key suffix = Some b ∧
           st' !! flag_key suffix = Some (negb b) ∧
           (∀ k, k ≠ flag_key suffix → st' !! k = st !! k) ∧
           (∀ s, s ≠ suffix → st' !! flag_key s = st !! flag_key s) ∧
           dom st' = dom st
  | Raise e => (∃ k, e = KeyError k) ∧ st !! flag_key suffix = None
  end.
Proof.
  unfold from_callback. destruct (st !! flag_key suffix) as [b|] eqn:Hb;
    [|split; [by eexists|done]].
  exists b. split; [done|]. split; [apply lookup_insert_eq|].
  split; [|split].
  - intros k Hk. by apply lookup_insert_ne.
  - intros s Hs. apply lookup_insert_ne. intros Heq. by apply flag_key_inj in Heq.
  - apply dom_insert_lookup_L. by eexists.
Qed.

(** After lines 13-18 the three flags exist, whatever the state was: entries
    that were there keep their value, a flag that was missing is [False],
    running the lines again changes nothing, and the callback of every toggle
    finds its flag. *)
Theorem init_session_state_flags (st : gmap string bool) :
  st ⊆ init_session_state st ∧
  init_session_state (init_session_state st) = init_session_state st ∧
  (∀ k b, init_session_state st !! k = Some b →
          st !! k = Some b ∨ (st !! k = None ∧ b = false)) ∧
  ∀ suffix, suffix ∈ suffixes →
    ∃ b st', init_session_state st !! flag_key suffix = Some b ∧
             from_callback suffix (init_session_state st) = Ok st' ∧
             st' !! flag_key suffix = Some (negb b).
Proof.
  assert (Hall : ∀ suffix, suffix ∈ suffixes →
            is_Some (init_session_state st !! flag_key suffix)).
  { intros suffix Hs. unfold init_session_state, suffixes in *.
    elem_cases Hs; rewrite !init_flag_lookup; simpl;
      repeat (case_decide; try done); by eexists. }
  split; [|split; [|split]].
  - unfold init_session_state.
    etrans; [apply (init_flag_subseteq "TARGET_DEMO")|].
    etrans; [apply (init_flag_subseteq "TARGET_MONEY")|].
    apply init_flag_subseteq.
  - unfold init_session_state at 1.
    rewrite (init_flag_present "TARGET_DEMO") by (apply (Hall "DEMO"%string); by left).
    rewrite (init_flag_present "TARGET_MONEY")
      by (apply (Hall "MONEY"%string); right; by left).
    apply init_flag_present, (Hall "CREDIT"%string). right; right; by left.
  - intros k b. unfold init_session_state. rewrite !init_flag_lookup.
    repeat case_decide; subst; try done;
      rewrite ?init_flag_lookup; repeat (case_decide; try done);
      destruct (st !! _) eqn:Hst; simpl; intros [= <-]; auto.
  - intros suffix Hs. destruct (Hall suffix Hs) as [b Hb].
    exists b. unfold from_callback. rewrite Hb. eexists.
    split; [done|]. split; [done|]. apply lookup_insert_eq.
Qed.

(** ** More on [filter_data] *)

(** The only error of [filter_data] is the [KeyError] of a table without a
    [TARGET] column. *)
Theorem filter_data_key_error (df : DataFrame) (v : Z) :
  ("TARGET" ∉ columns df → filter_data df v = Raise (KeyError "TARGET")) ∧
  (∀ e, filter_data df v = Raise e → e = KeyError "TARGET" ∧ "TARGET" ∉ columns df).
Proof.
  unfold filter_data, getitem_col.
  destruct (index_of "TARGET" (columns df)) as [i|] eqn:Hi; simpl.
  - split; [|done]. intros Hnot. exfalso. apply Hnot.
    apply index_of_lookup in Hi. by eapply list_elem_of_lookup_2.
  - split; [done|]. intros e [= <-]. split; [done|].
    intros [i Hi']%index_of_Some. congruence.
Qed.

Lemma value_eq_int_exclusive v v' x :
  v ≠ v' → value_eq_int v x = true → value_eq_int v' x = false.
Proof.
  destruct x as [z|s|]; simpl; try done.
  intros Hne ->%bool_decide_eq_true. by apply bool_decide_eq_false.
Qed.

Lemma List_filter_idemp {A : Type} (p : A → bool) (l : list A) :
  List.filter p (List.filter p l) = List.filter p l.
Proof.
  apply List_filter_all. intros x Hx.
  by apply list_elem_of_In, filter_In in Hx as [_ Hx].
Qed.

Lemma List_filter_none {A : Type} (p : A → bool) (l : list A) :
  (∀ x, x ∈ l → p x = false) → List.filter p l = [].
Proof.
  induction l as [|x l IH]; intros Hp; [done|]. simpl.
  rewrite Hp by left. apply IH. intros y Hy. apply Hp. by right.
Qed.

(** Filtering a filtered table again by the same label changes nothing, and
    by another label leaves no row. *)
Theorem filter_data_again (df out : DataFrame) (v : Z) :
  filter_data df v = Ok out →
  filter_data out v = Ok out ∧
  ∀ v', v' ≠ v → filter_data out v' = Ok (mkDF (columns out) []).
Proof.
  unfold filter_data at 1, getitem_col.
  destruct (index_of "TARGET" (columns df)) as [i|] eqn:Hi; [|done]. simpl.
  rewrite getitem_mask_column. intros [= <-]. split.
  - rewrite (filter_data_eq _ v i) by done. simpl. by rewrite List_filter_idemp.
  - intros v' Hne. rewrite (filter_data_eq _ v' i) by done. simpl.
    f_equal. f_equal. apply List_filter_none. intros r Hr.
    apply list_elem_of_In, filter_In in Hr as [_ Hr].
    by apply (value_eq_int_exclusive v v').
Qed.

Lemma filter_data_again_witness :
  filter_data (mkDF ["TARGET"; "GENDER"]%string
                 [mkRow 0 [VInt 1; VInt 1]; mkRow 2 [VInt 1; VInt 0];
                  mkRow 3 [VInt 1; VInt 1]]) 0 =
  Ok (mkDF ["TARGET"; "GENDER"]%string []).
Proof.
  destruct (filter_data_again T4 _ 1 eq_refl) as [_ Hother].
  apply (Hother 0). lia.
Defined.

(** Filtering keeps the index of the table in order: the row labels of the
    result are a sublist of the row labels of the input, so distinct labels
    stay distinct; and a rectangular table stays rectangular. *)
Theorem filter_data_index (df out : DataFrame) (v : Z) :
  filter_data df v = Ok out →
  sublist (label <$> rows out) (label <$> rows df) ∧
  (NoDup (label <$> rows df) → NoDup (label <$> rows out)) ∧
  (wf_frame df → wf_frame out).
Proof.
  intros Hout. pose proof (filter_data_rows _ _ _ Hout) as [Hcols Hsub].
  assert (Hlab : sublist (label <$> rows out) (label <$> rows df))
    by by apply fmap_sublist.
  split; [done|]. split.
  - intros Hnd. by eapply sublist_NoDup.
  - intros Hwf. by eapply filter_data_wf.
Qed.

Lemma filter_data_index_witness :
  ∃ out, filter_data T4 1 = Ok out ∧ label <$> rows out = [0; 2; 3] ∧
         NoDup (label <$> rows out).
Proof.
  exists (mkDF ["TARGET"; "GENDER"]%string
            [mkRow 0 [VInt 1; VInt 1]; mkRow 2 [VInt 1; VInt 0];
             mkRow 3 [VInt 1; VInt 1]]).
  split; [done|]. split; [done|].
  apply (filter_data_index T4 _ 1 eq_refl).
  apply (bool_decide_unpack _). by vm_compute.
Defined.

(** ** More on [load_data] *)

(** The cache of [load_data] keeps what the first successful call for a path
    returned: later calls with that path return it without reading, even
    when the file has changed or is gone; a call that raises leaves the cache
    as it was, so the next call reads again. *)
Theorem load_data_cache (fs : FileSystem) (cache : list (string * DataFrame))
    (p : string) :
  match load_data_cached fs cache p with
  | (Ok t, cache') =>
      cache_lookup p cache' = Some t ∧
      (∀ fs', load_data_cached fs' cache' p = (Ok t, cache')) ∧
      (cache_lookup p cache = None → read_csv fs DATA_PATH = Ok t)
  | (Raise e, cache') =>
      cache' = cache ∧ cache_lookup p cache = None ∧
      e = FileNotFoundError DATA_PATH ∧ fs DATA_PATH = None
  end.
Proof.
  destruct (load_data_cached fs cache p) as [[t|e] cache'] eqn:Hrun.
  - split; [|split].
    + unfold load_data_cached, cache_data in Hrun.
      destruct (cache_lookup p cache) as [v|] eqn:Hc.
      * by injection Hrun as <- <-.
      * destruct (load_data fs p) as [v|e]; [|done].
        injection Hrun as <- <-. simpl. by rewrite decide_True.
    + intros fs'. by eapply load_data_cached_again.
    + intros Hc. unfold load_data_cached, cache_data in Hrun. rewrite Hc in Hrun.
      unfold load_data in Hrun. destruct (read_csv fs DATA_PATH); [|done].
      simpl in Hrun. by injection Hrun as <- _.
  - unfold load_data_cached, cache_data in Hrun.
    destruct (cache_lookup p cache) as [v|] eqn:Hc; [done|].
    unfold load_data, read_csv in Hrun.
    destruct (fs DATA_PATH); [done|]. simpl in Hrun.
    by injection Hrun as <- <-.
Qed.

(** ** More on [phik_data] *)

Lemma positions_Ok names cols ps :
  positions names cols = Ok ps ↔
  Forall2 (λ n p, index_of n cols = Some p) names ps.
Proof.
  revert ps. induction names as [|n names IH]; intros ps; simpl.
  - split; [intros [= <-]; constructor|by intros ->%Forall2_nil_inv_l].
  - destruct (index_of n cols) as [i|] eqn:Hi.
    + destruct (positions names cols) as [ps'|e]; simpl.
      * split.
        -- intros [= <-]. constructor; [done|]. by apply IH.
        -- intros (p & ps'' & Hp & Hps & ->)%Forall2_cons_inv_l.
           apply IH in Hps. by simplify_eq.
      * split; [done|].
        intros (p & ps'' & Hp & Hps & ->)%Forall2_cons_inv_l.
        by apply IH in Hps.
    + split; [done|].
      intros (p & ps'' & Hp & Hps & ->)%Forall2_cons_inv_l. congruence.
Qed.




Lemma index_of_app_other name n cols :
  n ≠ name → index_of n (cols ++ [name]) = index_of n cols.
Proof.
  intros Hne. induction cols as [|c cols IH]; simpl.
  - by rewrite decide_False.
  - destruct (decide (c = n)); [done|]. by rewrite IH.
Qed.

Lemma positions_setitem df name vals names :
  name ∉ names →
  positions names (columns (setitem df name vals)) = positions names (columns df).
Proof.
  intros Hnot. unfold setitem.
  destruct (index_of name (columns df)); simpl; [done|].
  induction names as [|n names IH]; simpl; [done|].
  apply not_elem_of_cons in Hnot as [Hne Hnot].
  rewrite index_of_app_other by done. by rewrite IH.
Qed.

Lemma cell_setitem_other df name n i r v :
  wf_frame df → r ∈ rows df → n ≠ name → index_of n (columns df) = Some i →
  cell i (match index_of name (columns df) with
          | Some j => mkRow (label r) (<[j:=v]> (cells r))
          | None => mkRow (label r) (cells r ++ [v])
          end) = cell i r.
Proof.
  intros Hwf Hr Hne Hi. unfold cell.
  destruct (index_of name (columns df)) as [j|] eqn:Hj; simpl.
  - rewrite list_lookup_insert_ne; [done|].
    intros ->. apply index_of_lookup in Hi, Hj. congruence.
  - rewrite lookup_app_l; [done|].
    rewrite (Hwf r Hr). by eapply index_of_lt.
Qed.

Lemma getitem_cols_setitem df name vals names :
  name ∉ names → wf_frame df → length vals = length (rows df) →
  getitem_cols (setitem df name vals) names = getitem_cols df names.
Proof.
  intros Hnot Hwf Hlen. unfold getitem_cols.
  rewrite positions_setitem by done.
  destruct (positions names (columns df)) as [ps|e] eqn:Hps; [|done]. simpl.
  f_equal. f_equal. apply positions_Ok in Hps.
  assert (Hcells : ∀ r v, r ∈ rows df →
    (λ i, cell i (match index_of name (columns df) with
                  | Some j => mkRow (label r) (<[j:=v]> (cells r))
                  | None => mkRow (label r) (cells r ++ [v])
                  end)) <$> ps = (λ i, cell i r) <$> ps).
  { intros r v Hr. apply list_fmap_ext. intros k i Hk.
    destruct (Forall2_lookup_r _ _ _ _ _ Hps Hk) as (n & Hn & Hi).
    apply (cell_setitem_other df name n); try done.
    intros ->. apply Hnot. by eapply list_elem_of_lookup_2. }
  unfold setitem. destruct (index_of name (columns df)) as [j|] eqn:Hj; simpl;
    (apply fmap_zip_with_l; [done|]); intros r v Hr; simpl;
    f_equal; by rewrite <- (Hcells r v Hr).
Qed.

(** The correlation table never depends on a column outside the declared
    fields: assigning such a column ([GEN_INDUSTRY], [GEN_TITLE]), new or
    existing, to the table leaves the result of [phik_data] as it was. *)
Theorem phik_data_other_column
    (phik_matrix : DataFrame → list string → nat → CorrMatrix)
    (df : DataFrame) (name : string) (vals : list Value) :
  name ∉ fields → wf_frame df → length vals = length (rows df) →
  phik_data phik_matrix (setitem df name vals) = phik_data phik_matrix df.
Proof.
  intros Hnot Hwf Hlen. unfold phik_data.
  by rewrite getitem_cols_setitem.
Qed.

Lemma phik_data_other_column_witness :
  phik_data (λ sel _ _, mkCorr (columns sel) (columns sel) (λ _ _, Some (1 # 2)%Q))
            (setitem T19 "GEN_INDUSTRY" [VStr "trade"]) =
  phik_data (λ sel _ _, mkCorr (columns sel) (columns sel) (λ _ _, Some (1 # 2)%Q))
            T19.
Proof.
  apply phik_data_other_column.
  - apply (bool_decide_unpack _). by vm_compute.
  - intros r Hr. simpl in Hr. elem_cases Hr. done.
  - done.
Defined.

(** What [phik_matrix] is given: the declared columns, in the declared
    order, each with the cells it has in the table, and the rows with their
    labels. *)
Theorem getitem_cols_selection (df sel : DataFrame) (names : list string) :
  getitem_cols df names = Ok sel →
  columns sel = names ∧
  label <$> rows sel = label <$> rows df ∧
  ∀ n, n ∈ names → getitem_col sel n = getitem_col df n.
Proof.
  unfold getitem_cols.
  destruct (positions names (columns df)) as [ps|e] eqn:Hps; [|done]. simpl.
  intros [= <-]. simpl. apply positions_Ok in Hps.
  split; [done|]. split.
  - rewrite <- list_fmap_compose. by apply list_fmap_ext.
  - intros n [k Hk]%index_of_Some. unfold getitem_col. simpl. rewrite Hk.
    pose proof (index_of_lookup _ _ _ Hk) as Hn.
    destruct (Forall2_lookup_l _ _ _ _ _ Hps Hn) as (p & Hp & Hi).
    rewrite Hi. f_equal. rewrite <- list_fmap_compose.
    apply list_fmap_ext. intros j r _. unfold cell at 1. simpl.
    by rewrite list_lookup_fmap, Hp.
Qed.

Lemma getitem_cols_selection_witness :
  ∃ sel, getitem_cols T_jobs ["WORK_TIME"; "TARGET"]%string = Ok sel ∧
         columns sel = ["WORK_TIME"; "TARGET"]%string ∧
         getitem_col sel "TARGET" = getitem_col T_jobs "TARGET".
Proof.
  destruct (getitem_cols T_jobs ["WORK_TIME"; "TARGET"]%string) as [sel|e] eqn:Hsel;
    [|by vm_compute in Hsel].
  exists sel. split; [done|].
  destruct (getitem_cols_selection T_jobs sel _ Hsel) as (Hcols & _ & Hcol).
  split; [done|]. apply Hcol. right. by left.
Defined.

(** For a score between 0 and 1 the label is one of the eleven strings from
    [0.0] to [1.0], the one of the nearest tenth. *)
Theorem format_1f_unit_interval (q : Q) :
  (0 <= q <= 1)%Q →
  ∃ t, 0 ≤ t ≤ 10 ∧
       (Qabs (q * 10 - inject_Z t) <= 1 # 2)%Q ∧
       format_1f q = tenths_string false t ∧
       format_1f q ∈ ["0.0"; "0.1"; "0.2"; "0.3"; "0.4"; "0.5";
                      "0.6"; "0.7"; "0.8"; "0.9"; "1.0"]%string.
Proof.
  intros [Hlo Hhi]. pose proof (round_half_even_nearest (q * 10)) as Hnear.
  set (t := round_half_even (q * 10)) in *.
  apply Qabs_Qle_condition in Hnear as [Hn1 Hn2].
  assert (Ht : 0 ≤ t ≤ 10).
  { assert (H1 : -1 < t).
    { rewrite Zlt_Qlt. change (inject_Z (-1)) with (-1)%Q. lra. }
    assert (H2 : t < 11).
    { rewrite Zlt_Qlt. change (inject_Z 11) with 11%Q. lra. }
    lia. }
  assert (Hneg : is_negative q = false).
  { unfold is_negative. destruct (Qcompare_spec q 0); try done. lra. }
  assert (Hfmt : format_1f q = tenths_string false t).
  { unfold format_1f. fold t. rewrite Hneg. f_equal. lia. }
  exists t. split; [done|]. split; [by apply Qabs_Qle_condition|]. split; [done|].
  rewrite Hfmt.
  assert (Hcases : t = 0 ∨ t = 1 ∨ t = 2 ∨ t = 3 ∨ t = 4 ∨ t = 5 ∨ t = 6 ∨
                   t = 7 ∨ t = 8 ∨ t = 9 ∨ t = 10) by lia.
  clearbody t.
  repeat (destruct Hcases as [-> | Hcases];
          [apply (bool_decide_unpack _); by vm_compute|]).
  subst t. apply (bool_decide_unpack _). by vm_compute.
Qed.

Lemma format_1f_unit_interval_witness :
  format_1f (1 # 4) ∈ ["0.0"; "0.1"; "0.2"; "0.3"; "0.4"; "0.5";
                       "0.6"; "0.7"; "0.8"; "0.9"; "1.0"]%string.
Proof.
  destruct (format_1f_unit_interval (1 # 4)) as (t & _ & _ & _ & Hin); [|done].
  split; unfold Qle; simpl; lia.
Defined.

(** ** More on the charts *)








(** ** The other sections *)

Lemma bind_fail {A B : Type} (m : M A) (f : A → M B) (h h' : Heap) (e : Exn) :
  m h = (Raise e, h') → (m ≫= f) h = (Raise e, h').
Proof. unfold mbind, M_bind. by intros ->. Qed.

Lemma show_bar_heap source feature (h : Heap) : (show_bar source feature h).2 = h.
Proof.
  unfold show_bar, mbind, M_bind, load, lift. by destruct (h !! source).
Qed.




Lemma filter_data_present df flag :
  "TARGET" ∈ columns df → ∃ T, filter_data df flag = Ok T ∧ columns T = columns df.
Proof.
  intros [i Hi]%index_of_Some. eexists. split; [by apply filter_data_eq|done].
Qed.

Lemma getitem_col_present df field :
  field ∈ columns df → ∃ col, getitem_col df field = Ok col ∧
                              length col = length (rows df).
Proof.
  intros [i Hi]%index_of_Some. unfold getitem_col. rewrite Hi.
  eexists. split; [done|]. by rewrite length_fmap.
Qed.




(** *** Sections that replace 1 and 0 by words *)

Lemma cell_replace mapping i r :
  cell i (mkRow (label r) (replace_value mapping <$> cells r)) =
  replace_value mapping (cell i r).
Proof.
  unfold cell. cbn [cells]. rewrite list_lookup_fmap.
  by destruct (cells r !! i).
Qed.

Lemma getitem_col_replace mapping df name col :
  getitem_col df name = Ok col →
  getitem_col (replace mapping df) name = Ok (replace_value mapping <$> col).
Proof.
  unfold getitem_col, replace. cbn [columns rows].
  destruct (index_of name (columns df)) as [i|]; [|done].
  intros [= <-]. f_equal. rewrite <- !list_fmap_compose.
  apply list_fmap_ext. intros _ r _. apply cell_replace.
Qed.

Lemma replace_cells mapping df :
  cells <$> rows (replace mapping df) =
  fmap (replace_value mapping) <$> (cells <$> rows df).
Proof. unfold replace. cbn [rows]. by rewrite <- !list_fmap_compose. Qed.

Lemma zip_fmap_l {A B C : Type} (f : A → C) (xs : list A) (ys : list B) :
  zip (f <$> xs) ys = (λ e, (f e.1, e.2)) <$> zip xs ys.
Proof.
  revert ys. induction xs as [|x xs IH]; intros [|y ys]; csimpl; [done..|].
  by rewrite IH.
Qed.

Lemma counts_not_replaced mapping (vc : list (Value * nat)) :
  (∀ v c, (v, c) ∈ vc → replacement mapping (Z.of_nat c) = None) →
  replace_value mapping <$> ((λ e, VInt (Z.of_nat e.2)) <$> vc) =
  (λ e, VInt (Z.of_nat e.2)) <$> vc.
Proof.
  intros Hnone. rewrite <- list_fmap_compose. apply list_fmap_ext.
  intros _ [v c] Hin%list_elem_of_lookup_2. simpl.
  by rewrite (Hnone v c Hin).
Qed.

Lemma aggregate_replace_run (h : Heap) source df col c mapping :
  h !! source = Some df → getitem_col df col = Ok c →
  aggregate_replace source col mapping h =
  (Ok (length h), h ++ [replace mapping (reset_index col (value_counts c))]).
Proof.
  intros Hdf Hc. unfold aggregate_replace, mbind, M_bind, load, lift, alloc.
  by rewrite Hdf, Hc.
Qed.

Lemma bar_chart_replace mapping name vc :
  name ≠ "count"%string →
  (∀ v c, (v, c) ∈ vc → replacement mapping (Z.of_nat c) = None) →
  bar_chart (replace mapping (reset_index name vc)) name =
  Ok ((λ e, (replace_value mapping e.1, e.2)) <$> shares_of vc).
Proof.
  intros Hne Hnone. unfold bar_chart.
  rewrite (getitem_col_replace _ _ _ _ (getitem_col_reset_index name vc)).
  rewrite (getitem_col_replace _ _ _ _ (getitem_col_reset_index_count name vc Hne)).
  rewrite (counts_not_replaced _ _ Hnone). csimpl.
  rewrite numbers_counts. csimpl. unfold mret, Result_ret. f_equal.
  apply zip_fmap_l.
Qed.

(** The sections that put words for 1 and 0 (gender, work, pension, flat).
    [replace] is applied to the whole table of counts and not to the field
    alone: the table handed to the chart has the words in both columns. A
    value that occurs as often as a key of the dictionary says, once for the
    key 1, has its count replaced by the word; when no count is a key, the
    chart shows the shares of the plain section under the words. *)
Theorem replace_sections (h : Heap) (data : loc) (df : DataFrame) (flag : Z)
    (field : string) (mapping : list (Z * string)) :
  h !! data = Some df → "TARGET" ∈ columns df → field ∈ columns df →
  (field, mapping) ∈ worded_fields →
  ∃ T col table,
    filter_data df flag = Ok T ∧ getitem_col T field = Ok col ∧
    table = replace mapping (reset_index field (value_counts col)) ∧
    (section_bar_replace data flag field mapping h).2 = h ++ [T; table] ∧
    cells <$> rows table =
      (λ e, [replace_value mapping e.1;
             replace_value mapping (VInt (Z.of_nat e.2))]) <$> value_counts col ∧
    (∀ v c s, (v, c) ∈ value_counts col →
       replacement mapping (Z.of_nat c) = Some s →
       [replace_value mapping v; VStr s] ∈ cells <$> rows table) ∧
    ((∀ v c, (v, c) ∈ value_counts col →
        replacement mapping (Z.of_nat c) = None) →
     section_bar_replace data flag field mapping h =
       (Ok (S (length h),
            (λ e, (replace_value mapping e.1, e.2)) <$> shares_of (value_counts col)),
        h ++ [T; table])).
Proof.
  intros Hdf Htarget Hfield Hworded.
  assert (Hc : field ≠ "count"%string).
  { intros ->. unfold worded_fields in Hworded. elem_cases Hworded; done. }
  destruct (filter_data_present df flag Htarget) as (T & HT & Hcols).
  destruct (getitem_col_present T field) as (col & Hcol & _);
    [by rewrite Hcols|].
  exists T, col, (replace mapping (reset_index field (value_counts col))).
  split; [done|]. split; [done|]. split; [done|].
  assert (Hcells :
    cells <$> rows (replace mapping (reset_index field (value_counts col))) =
    (λ e, [replace_value mapping e.1;
           replace_value mapping (VInt (Z.of_nat e.2))]) <$> value_counts col).
  { rewrite replace_cells. unfold reset_index. cbn [rows].
    rewrite count_rows_cells. unfold count_cells.
    by rewrite <- list_fmap_compose. }
  assert (Hrun : ∀ k : loc * list (Value * Q) → M (loc * list (Value * Q)),
    section_bar_replace data flag field mapping h =
    (chart ← show_bar (S (length h)) field; mret (S (length h), chart))
      (h ++ [T; replace mapping (reset_index field (value_counts col))])).
  { intros _. unfold section_bar_replace.
    rewrite (bind_run _ _ _ _ _ (call_filter_data_run _ _ _ _ _ Hdf HT)).
    rewrite (bind_run _ _ _ _ _
      (aggregate_replace_run _ _ _ _ _ mapping (lookup_snoc h T) Hcol)).
    rewrite length_app, <- app_assoc. simpl.
    by replace (length h + 1)%nat with (S (length h)) by lia. }
  specialize (Hrun (λ x, mret x)).
  assert (Hat : (h ++ [T; replace mapping (reset_index field (value_counts col))])
                  !! S (length h) =
                Some (replace mapping (reset_index field (value_counts col)))).
  { change [T; ?x] with ([T] ++ [x]). rewrite app_assoc.
    replace (S (length h)) with (length (h ++ [T])); [apply lookup_snoc|].
    rewrite length_app. simpl. lia. }
  split; [|split; [done|split]].
  - rewrite Hrun. unfold mbind, M_bind.
    pose proof (show_bar_heap (S (length h)) field
      (h ++ [T; replace mapping (reset_index field (value_counts col))])) as Hh.
    by destruct (show_bar _ _ _) as [[chart|e] h2]; simpl in *; subst.
  - intros v c s Hin Hs. rewrite Hcells.
    apply list_elem_of_fmap. exists (v, c). split; [|done].
    simpl. by rewrite Hs.
  - intros Hnone. rewrite Hrun.
    erewrite (bind_run (show_bar _ _)); last first.
    { eapply show_bar_run; [exact Hat|]. by apply bar_chart_replace. }
    done.
Qed.

Lemma replace_sections_witness :
  ([VStr "Женщины"; VStr "Мужчины"] ∈
     cells <$> rows (replace men_women
                       (reset_index "GENDER" [(VInt 1, 3%nat); (VInt 0, 1%nat)]))) ∧
  (tab1_pens 0%nat 1 [T_flags]).1 =
    Ok (2%nat, [(VStr "нет", 2 # 4); (VStr "да", 2 # 4)]).
Proof.
  assert (Htarget : "TARGET"%string ∈ columns T_flags) by by left.
  split.
  - assert (Hfield : "GENDER"%string ∈ columns T_flags) by (right; by left).
    assert (Hw : ("GENDER"%string, men_women) ∈ worded_fields) by by left.
    destruct (replace_sections [T_flags] 0%nat T_flags 1 "GENDER" men_women
                eq_refl Htarget Hfield Hw)
      as (T & col & table & HT & Hcol & -> & _ & _ & Hword & _).
    vm_compute in HT. injection HT as <-.
    vm_compute in Hcol. injection Hcol as <-.
    apply (Hword (VInt 0) 1%nat "Мужчины"%string); [|done].
    right. by left.
  - assert (Hfield : "SOCSTATUS_PENS_FL"%string ∈ columns T_flags)
      by (right; right; by left).
    assert (Hw : ("SOCSTATUS_PENS_FL"%string, yes_no) ∈ worded_fields)
      by (right; right; by left).
    destruct (replace_sections [T_flags] 0%nat T_flags 1 "SOCSTATUS_PENS_FL" yes_no
                eq_refl Htarget Hfield Hw)
      as (T & col & table & HT & Hcol & -> & _ & _ & _ & Hchart).
    vm_compute in HT. injection HT as <-.
    vm_compute in Hcol. injection Hcol as <-.
    unfold tab1_pens. rewrite Hchart; [done|].
    intros v c Hin. vm_compute in Hin. elem_cases Hin; by simplify_eq.
Defined.

(** *** What stops the section of the working time *)

Lemma series_gt_int_str v col s :
  VStr s ∈ col → series_gt_int v col = Raise TypeError.
Proof.
  induction col as [|x col IH]; [by intros ?%elem_of_nil|].
  intros [<-|Hin]%elem_of_cons; [done|].
  simpl. rewrite (IH Hin). by destruct x.
Qed.

Lemma keep_positive_fail (h : Heap) source df col c s :
  h !! source = Some df → getitem_col df col = Ok c → VStr s ∈ c →
  keep_positive source col h = (Raise TypeError, h).
Proof.
  intros Hdf Hc Hs. unfold keep_positive, mbind, M_bind, load, lift.
  by rewrite Hdf, Hc, (series_gt_int_str _ _ _ Hs).
Qed.

(** The section of the working time is stopped by a filtered row whose
    [WORK_TIME] holds text: the comparison [source.WORK_TIME > 0] raises
    [TypeError], after the filtered table and the table of counts were made,
    and no chart is shown. *)
Theorem tab2_work_time_text (h : Heap) (data : loc) (df T : DataFrame)
    (flag : Z) (w : nat) (r : Row) (s : string) :
  h !! data = Some df → filter_data df flag = Ok T →
  index_of "WORK_TIME" (columns T) = Some w →
  r ∈ rows T → cell w r = VStr s →
  tab2_work_time data flag h =
  (Raise TypeError,
   h ++ [T; reset_index "WORK_TIME" (value_counts (cell w <$> rows T))]).
Proof.
  intros Hdf HT Hw Hr Hs. unfold tab2_work_time.
  rewrite (bind_run _ _ _ _ _ (call_filter_data_run _ _ _ _ _ Hdf HT)).
  rewrite (bind_run _ _ _ _ _
    (aggregate_run _ _ _ _ _ (lookup_snoc h T) (getitem_col_at _ _ _ Hw))).
  rewrite <- app_assoc. simpl.
  apply bind_fail. rewrite length_app. simpl.
  change [T; ?x] with ([T] ++ [x]). rewrite app_assoc.
  replace (length h + 1)%nat with (length (h ++ [T]))
    by (rewrite length_app; simpl; lia).
  eapply (keep_positive_fail _ _ _ _ _ s);
    [apply lookup_snoc|apply getitem_col_reset_index|].
  apply value_counts_keys. split; [|done].
  rewrite <- Hs. apply list_elem_of_fmap. by exists r.
Qed.

Lemma tab2_work_time_text_witness :
  ∃ h', tab2_work_time 0%nat 1
          [mkDF ["TARGET"; "WORK_TIME"]%string
             [mkRow 0 [VInt 1; VInt 12]; mkRow 1 [VInt 1; VStr "year"]]] =
        (Raise TypeError, h').
Proof.
  set (df := mkDF ["TARGET"; "WORK_TIME"]%string
             [mkRow 0 [VInt 1; VInt 12]; mkRow 1 [VInt 1; VStr "year"]]).
  assert (HT : filter_data df 1 = Ok df) by reflexivity.
  assert (Hr : mkRow 1 [VInt 1; VStr "year"] ∈ rows df) by (right; by left).
  eexists.
  exact (tab2_work_time_text [df] 0%nat df df 1 1%nat
           (mkRow 1 [VInt 1; VStr "year"]) "year" eq_refl HT eq_refl Hr eq_refl).
Defined.

Lemma tab2_industries_top10_witness :
  ∃ chart h' agg,
    tab2_industries 0%nat 1 [T_jobs] = (Ok (3%nat, chart), h') ∧
    h' !! 3%nat = Some agg ∧ (length (rows agg) ≤ 11)%nat.
Proof.
  assert (Hwf : wf_frame T_jobs).
  { intros r Hr. simpl in Hr. elem_cases Hr; done. }
  destruct (filter_data_present T_jobs 1) as (T & HT & Hcols); [by left|].
  assert (Hg : index_of "GEN_INDUSTRY" (columns T) = Some 1%nat)
    by (rewrite Hcols; reflexivity).
  destruct (tab2_industries_top10 [T_jobs] 0%nat T_jobs T 1 1%nat
              eq_refl Hwf HT Hg)
    as (chart & h' & agg & out & Hrun & Hagg & _ & Hlen & _).
  exists chart, h', agg.
  split; [exact Hrun|]. split; [exact Hagg|exact Hlen].
Defined.
